(** * Sigil: PCREReplaceTextBuilder

    A shallow embedding of [src/PCRE2/PCREReplaceTextBuilder.cpp] and the
    properties of its replacement-text state machine.

    Text is modelled the way Qt stores it: a [QString] is a sequence of
    16-bit code units ([QChar]), and the scanner walks the replacement
    pattern one code unit at a time.  The builder object ([m_finalText],
    [m_caseChangeState]) and the local variables of the scanning loop are
    records threaded explicitly through the loop body. *)

From Stdlib Require Import ZArith List Bool Lia String Ascii.
Import ListNotations.
Open Scope Z_scope.

(** ** Text model *)

Definition QChar := Z.
Definition QString := list QChar.

(** The default-constructed [QChar()] is the code unit 0. *)
Definition QChar_null : QChar := 0.
Definition isNull (c : QChar) : bool := c =? 0.

(** [QChar(uint rc)] keeps the low 16 bits of [rc]. *)
Definition QChar_of_uint (rc : Z) : QChar := Z.land rc 65535.

(** A C character literal compared with or converted to a [QChar]. *)
Definition ch (a : ascii) : QChar := Z.of_N (N_of_ascii a).

(** A C string literal converted to a [QString]. *)
Fixpoint qs (s : string) : QString :=
  match s with
  | EmptyString => []
  | String a r => ch a :: qs r
  end.

Definition QString_eqb (s t : QString) : bool :=
  if list_eq_dec Z.eq_dec s t then true else false.

(** [s.contains(c)] for a one-character needle. *)
Definition QString_contains (s : QString) (c : QChar) : bool :=
  existsb (Z.eqb c) s.

Definition QString_length (s : QString) : Z := Z.of_nat (List.length s).
Definition QString_left (n : nat) (s : QString) : QString := firstn n s.
Definition QString_right (n : nat) (s : QString) : QString :=
  skipn (List.length s - n) s.
Definition QString_mid (n : nat) (s : QString) : QString := skipn n s.

(** The macro [is_hex]. *)
Definition is_hex (a : QChar) : bool :=
  ((ch "0" <=? a) && (a <=? ch "9"))
  || ((ch "a" <=? a) && (a <=? ch "f"))
  || ((ch "A" <=? a) && (a <=? ch "F")).

(** Value of one hexadecimal digit. *)
Definition hex_digit_value (a : QChar) : Z :=
  if (ch "0" <=? a) && (a <=? ch "9") then a - ch "0"
  else if (ch "a" <=? a) && (a <=? ch "f") then a - ch "a" + 10
  else a - ch "A" + 10.

(** [s.toUInt(NULL, 16)] on the strings the builder passes to it.  The
    builder only converts strings all of whose characters satisfy [is_hex]
    and whose length is at most 6; on those Qt returns the positional
    value.  A string with any other character converts to 0. *)
Definition QString_toUInt16 (s : QString) : Z :=
  if forallb is_hex s
  then fold_left (fun acc a => 16 * acc + hex_digit_value a) s 0
  else 0.

(** ** External collaborators

    Qt's Unicode tables and number parsing, and [Utility::Substring], are
    not part of this file's source; they are taken as operations of an
    interface. *)

Class Qt := {
  QChar_isDigit : QChar -> bool;
  QChar_digitValue : QChar -> Z;
  QChar_toLower : QChar -> QChar;
  QChar_toUpper : QChar -> QChar;
  QString_toLower : QString -> QString;
  QString_toUpper : QString -> QString;
  QString_toInt : QString -> Z;
  QString_fromUcs4 : Z -> QString;
  Utility_Substring : Z -> Z -> QString -> QString
}.

(** On the ASCII range Qt's [isDigit] is the test for ['0'..'9']. *)
Definition isDigit_ascii (Q : Qt) : Prop :=
  forall c, 0 <= c < 128 ->
    @QChar_isDigit Q c = (ch "0" <=? c) && (c <=? ch "9").

(** The regex object, seen through the two members the builder calls. *)
Record SPCRE := {
  isValid : bool;
  getCaptureStringNumber : QString -> Z
}.

(** ** Builder state *)

Inductive CaseChange :=
| CaseChange_LowerNext
| CaseChange_Lower
| CaseChange_UpperNext
| CaseChange_Upper
| CaseChange_None.

Definition CaseChange_eqb (a b : CaseChange) : bool :=
  match a, b with
  | CaseChange_LowerNext, CaseChange_LowerNext
  | CaseChange_Lower, CaseChange_Lower
  | CaseChange_UpperNext, CaseChange_UpperNext
  | CaseChange_Upper, CaseChange_Upper
  | CaseChange_None, CaseChange_None => true
  | _, _ => false
  end.

Record Builder := mkBuilder {
  m_finalText : QString;
  m_caseChangeState : CaseChange
}.

(** The local variables of [BuildReplacementText]'s loop. *)
Record Locals := mkLocals {
  backref_bracket_start_char : QChar;
  control_char : QChar;
  backref_name : QString;
  invalid_control : QString;
  control_x_hex : QString;
  control_x6_hex : QString;
  in_hex6 : bool;
  in_control : bool
}.

Definition set_backref_bracket_start_char (l : Locals) (v : QChar) : Locals :=
  mkLocals v (control_char l) (backref_name l) (invalid_control l)
           (control_x_hex l) (control_x6_hex l) (in_hex6 l) (in_control l).
Definition set_control_char (l : Locals) (v : QChar) : Locals :=
  mkLocals (backref_bracket_start_char l) v (backref_name l) (invalid_control l)
           (control_x_hex l) (control_x6_hex l) (in_hex6 l) (in_control l).
Definition set_backref_name (l : Locals) (v : QString) : Locals :=
  mkLocals (backref_bracket_start_char l) (control_char l) v (invalid_control l)
           (control_x_hex l) (control_x6_hex l) (in_hex6 l) (in_control l).
Definition set_invalid_control (l : Locals) (v : QString) : Locals :=
  mkLocals (backref_bracket_start_char l) (control_char l) (backref_name l) v
           (control_x_hex l) (control_x6_hex l) (in_hex6 l) (in_control l).
Definition set_control_x_hex (l : Locals) (v : QString) : Locals :=
  mkLocals (backref_bracket_start_char l) (control_char l) (backref_name l)
           (invalid_control l) v (control_x6_hex l) (in_hex6 l) (in_control l).
Definition set_control_x6_hex (l : Locals) (v : QString) : Locals :=
  mkLocals (backref_bracket_start_char l) (control_char l) (backref_name l)
           (invalid_control l) (control_x_hex l) v (in_hex6 l) (in_control l).
Definition set_in_hex6 (l : Locals) (v : bool) : Locals :=
  mkLocals (backref_bracket_start_char l) (control_char l) (backref_name l)
           (invalid_control l) (control_x_hex l) (control_x6_hex l) v (in_control l).
Definition set_in_control (l : Locals) (v : bool) : Locals :=
  mkLocals (backref_bracket_start_char l) (control_char l) (backref_name l)
           (invalid_control l) (control_x_hex l) (control_x6_hex l) (in_hex6 l) v.

(** The locals as declared before the loop: default-constructed characters
    and strings, both flags false. *)
Definition locals_init : Locals :=
  mkLocals QChar_null QChar_null [] [] [] [] false false.

(** ** A reference instance of the interface

    An ASCII-only implementation of the Qt operations, used to run the
    model on concrete patterns. *)
Module Ascii.

Definition isDigit (c : QChar) : bool := (ch "0" <=? c) && (c <=? ch "9").
Definition digitValue (c : QChar) : Z := if isDigit c then c - ch "0" else -1.
Definition toLower (c : QChar) : QChar :=
  if (ch "A" <=? c) && (c <=? ch "Z") then c + 32 else c.
Definition toUpper (c : QChar) : QChar :=
  if (ch "a" <=? c) && (c <=? ch "z") then c - 32 else c.

(** Decimal digits only; anything else converts to 0. *)
Definition toInt (s : QString) : Z :=
  match s with
  | [] => 0
  | _ => if forallb isDigit s
         then fold_left (fun acc a => 10 * acc + (a - ch "0")) s 0
         else 0
  end.

(** UTF-16 encoding of one code point. *)
Definition fromUcs4 (u : Z) : QString :=
  if u <? 65536 then [u]
  else [Z.shiftr u 10 + 55232; u mod 1024 + 56320].

Definition Substring (start_index end_index : Z) (s : QString) : QString :=
  firstn (Z.to_nat (end_index - start_index)) (skipn (Z.to_nat start_index) s).

Definition qt : Qt :=
  {| QChar_isDigit := isDigit;
     QChar_digitValue := digitValue;
     QChar_toLower := toLower;
     QChar_toUpper := toUpper;
     QString_toLower := map toLower;
     QString_toUpper := map toUpper;
     QString_toInt := toInt;
     QString_fromUcs4 := fromUcs4;
     Utility_Substring := Substring |}.

(** A regex object with one named group, ["year"], numbered 1. *)
Definition sre : SPCRE :=
  {| isValid := true;
     getCaptureStringNumber :=
       fun n => if QString_eqb n (qs "year") then 1 else -1 |}.

(** A source text and the spans of a match with two groups: the whole
    match [Hello] and the group [2024]. *)
Definition text : QString := qs "Hello World 2024".
Definition spans : list (Z * Z) := [(0, 5); (12, 16)].

End Ascii.

(** ** The builder *)

Section Builder.

Context {Q : Qt}.

(** [IsValidHex6] *)
Definition IsValidHex6 (hv : QString) : bool :=
  let hl := QString_length hv in
  if (hl <? 2) || (hl =? 3) || (hl =? 5) || (hl >? 6) then false
  else if negb (forallb is_hex hv) then false
  else if (hl =? 2) || (hl =? 4) then true
  else if QString_eqb (QString_left 1 hv) (qs "0")
          || QString_eqb (QString_left 2 hv) (qs "10") then true
  else false.

(** [resetState] *)
Definition resetState (this : Builder) : Builder :=
  mkBuilder [] CaseChange_None.

(** [trySetCaseChange] *)
Definition trySetCaseChange (this : Builder) (state : CaseChange) : Builder :=
  if CaseChange_eqb (m_caseChangeState this) CaseChange_None
  then mkBuilder (m_finalText this) state
  else this.

(** [processTextSegement(const QString &)]: the processed text and the
    builder after the call. *)
Definition processTextSegement (this : Builder) (text : QString)
  : QString * Builder :=
  match text with
  | [] => ([], this)
  | c0 :: _ =>
    match m_caseChangeState this with
    | CaseChange_LowerNext =>
        ([QChar_toLower c0] ++ QString_mid 1 text,
         mkBuilder (m_finalText this) CaseChange_None)
    | CaseChange_Lower => (QString_toLower text, this)
    | CaseChange_UpperNext =>
        ([QChar_toUpper c0] ++ QString_mid 1 text,
         mkBuilder (m_finalText this) CaseChange_None)
    | CaseChange_Upper => (QString_toUpper text, this)
    | CaseChange_None => (text, this)
    end
  end.

(** [accumulateReplcementText(const QString &)]; the [QChar] overload is
    this one applied to the one-character string. *)
Definition accumulateReplcementText (this : Builder) (text : QString)
  : Builder :=
  let (processed, this') := processTextSegement this text in
  mkBuilder (m_finalText this' ++ processed) (m_caseChangeState this').

Definition capture_count (cgo : list (Z * Z)) : Z := Z.of_nat (List.length cgo).
Definition capture_at (cgo : list (Z * Z)) (n : Z) : Z * Z :=
  nth (Z.to_nat n) cgo (0, 0).

(** The text of capture group [n]. *)
Definition capture_text (text : QString) (cgo : list (Z * Z)) (n : Z) : QString :=
  Utility_Substring (fst (capture_at cgo n)) (snd (capture_at cgo n)) text.

(** One iteration of the scanning loop on the character [c]. *)
Definition loop_body (sre : SPCRE) (text : QString) (cgo : list (Z * Z))
           (st : Builder * Locals) (c : QChar) : Builder * Locals :=
  let (this, l) := st in
  if in_control l then
    let l := set_invalid_control l (invalid_control l ++ [c]) in
    if isNull (control_char l) then
      let l := set_control_char l c in
      if QChar_isDigit c then
        let backref_number := QChar_digitValue c in
        if (0 <=? backref_number) && (backref_number <? capture_count cgo)
        then (accumulateReplcementText this (capture_text text cgo backref_number),
              set_in_control l false)
        else (accumulateReplcementText this (invalid_control l),
              set_in_control l false)
      else if c =? ch "a" then
        (accumulateReplcementText this [7], set_in_control l false)
      else if c =? ch "b" then
        (accumulateReplcementText this [8], set_in_control l false)
      else if c =? ch "f" then
        (accumulateReplcementText this [12], set_in_control l false)
      else if c =? ch "n" then
        (accumulateReplcementText this [10], set_in_control l false)
      else if c =? ch "r" then
        (accumulateReplcementText this [13], set_in_control l false)
      else if c =? ch "t" then
        (accumulateReplcementText this [9], set_in_control l false)
      else if c =? ch "v" then
        (accumulateReplcementText this [11], set_in_control l false)
      else if c =? ch "\" then
        (accumulateReplcementText this [ch "\"], set_in_control l false)
      else if c =? ch "E" then
        (mkBuilder (m_finalText this) CaseChange_None, set_in_control l false)
      else if c =? ch "g" then
        (this, set_backref_bracket_start_char l QChar_null)
      else if c =? ch "l" then
        (trySetCaseChange this CaseChange_LowerNext, set_in_control l false)
      else if c =? ch "L" then
        (trySetCaseChange this CaseChange_Lower, set_in_control l false)
      else if c =? ch "u" then
        (trySetCaseChange this CaseChange_UpperNext, set_in_control l false)
      else if c =? ch "U" then
        (trySetCaseChange this CaseChange_Upper, set_in_control l false)
      else (this, l)
    else
      if control_char l =? ch "g" then
        if isNull (backref_bracket_start_char l) then
          if (c =? ch "{") || (c =? ch "<") then
            (this, set_backref_name (set_backref_bracket_start_char l c) [])
          else
            (accumulateReplcementText this (invalid_control l),
             set_in_control l false)
        else
          if ((c =? ch "}") && (backref_bracket_start_char l =? ch "{"))
             || ((c =? ch ">") && (backref_bracket_start_char l =? ch "<"))
          then
            let backref_number := QString_toInt (backref_name l) in
            let backref_number :=
              if (backref_number =? 0)
                 && negb (QString_eqb (backref_name l) (qs "0"))
              then getCaptureStringNumber sre (backref_name l)
              else backref_number in
            if (0 <=? backref_number) && (backref_number <? capture_count cgo)
            then (accumulateReplcementText this (capture_text text cgo backref_number),
                  set_in_control l false)
            else (accumulateReplcementText this (invalid_control l),
                  set_in_control l false)
          else
            (this, set_backref_name l (backref_name l ++ [c]))
      else if control_char l =? ch "x" then
        if (c =? ch "{") && negb (in_hex6 l) then
          (this, set_in_hex6 l true)
        else if (c =? ch "}") && in_hex6 l && IsValidHex6 (control_x6_hex l) then
          let hl := QString_length (control_x6_hex l) in
          let this :=
            if (hl =? 2) || (hl =? 4) then
              accumulateReplcementText this
                [QChar_of_uint (QString_toUInt16 (control_x6_hex l))]
            else
              let extended_plane := QString_left 2 (control_x6_hex l) in
              let remainder := QString_right 4 (control_x6_hex l) in
              let achar := QString_toUInt16 remainder in
              let achar :=
                (65536 * QString_toUInt16 extended_plane + achar) mod 2 ^ 32 in
              accumulateReplcementText this (QString_fromUcs4 achar) in
          (this,
           set_control_x6_hex (set_in_hex6 (set_in_control l false) false) [])
        else if is_hex c then
          if in_hex6 l then
            (this, set_control_x6_hex l (control_x6_hex l ++ [c]))
          else
            let l := set_control_x_hex l (control_x_hex l ++ [c]) in
            if QString_length (control_x_hex l) =? 2 then
              (accumulateReplcementText this
                 [QChar_of_uint (QString_toUInt16 (control_x_hex l))],
               set_in_control l false)
            else (this, l)
        else
          (accumulateReplcementText this (invalid_control l),
           set_in_control l false)
      else
        (accumulateReplcementText this (invalid_control l),
         set_in_control l false)
  else
    if c =? ch "\" then
      (this,
       mkLocals (backref_bracket_start_char l) QChar_null (backref_name l)
                [c] [] [] false true)
    else
      (accumulateReplcementText this [c], l).

(** The segment that the closing brace of a valid [\x{...}] accumulates,
    as computed in [loop_body]. *)
Definition hex6_segment (x6 : QString) : QString :=
  if (QString_length x6 =? 2) || (QString_length x6 =? 4)
  then [QChar_of_uint (QString_toUInt16 x6)]
  else QString_fromUcs4
         ((65536 * QString_toUInt16 (QString_left 2 x6)
           + QString_toUInt16 (QString_right 4 x6)) mod 2 ^ 32).

(** The loop over the pattern, from a given state. *)
Definition scan (sre : SPCRE) (text : QString) (cgo : list (Z * Z))
           (st : Builder * Locals) (pattern : QString) : Builder * Locals :=
  fold_left (loop_body sre text cgo) pattern st.

(** What follows the loop: an unfinished control is put into the text. *)
Definition finish (st : Builder * Locals) : Builder :=
  let (this, l) := st in
  if in_control l then accumulateReplcementText this (invalid_control l)
  else this.

(** [BuildReplacementText]: the returned flag, the value of [out] after
    the call, and the builder after the call. *)
Definition BuildReplacementText (this : Builder) (sre : SPCRE)
           (text : QString) (capture_groups_offsets : list (Z * Z))
           (replacement_pattern : QString) (out : QString)
  : bool * QString * Builder :=
  let this := resetState this in
  if negb (isValid sre) then (false, out, this)
  else if negb (QString_contains replacement_pattern (ch "\")) then
    (true, replacement_pattern, this)
  else
    let this :=
      finish (scan sre text capture_groups_offsets (this, locals_init)
                   replacement_pattern) in
    (true, m_finalText this, this).

Definition success (r : bool * QString * Builder) : bool := fst (fst r).
Definition out_text (r : bool * QString * Builder) : QString := snd (fst r).

End Builder.

(** A builder as its constructor leaves it. *)
Definition fresh_builder : Builder := mkBuilder [] CaseChange_None.

(** ** Names for intermediate scanner states *)

(** The locals once the character after the backslash has been recorded:
    it has been added to [invalid_control] and stored in [control_char]. *)
Definition classified (l : Locals) (c : QChar) : Locals :=
  set_control_char (set_invalid_control l (invalid_control l ++ [c])) c.

(** The locals after a character inside a known control has been added to
    [invalid_control]. *)
Definition noted (l : Locals) (c : QChar) : Locals :=
  set_invalid_control l (invalid_control l ++ [c]).

(** The character that closes a named back reference opened by [open]. *)
Definition closer (open : QChar) : QChar :=
  if open =? ch "{" then ch "}" else ch ">".

(** The metacharacter controls of [loop_body]: the letter after the
    backslash and the code unit of the C escape it stands for. *)
Definition metacharacters : list (QChar * QChar) :=
  [ (ch "a", 7); (ch "b", 8); (ch "f", 12); (ch "n", 10); (ch "r", 13);
    (ch "t", 9); (ch "v", 11); (ch "\", ch "\") ].

(** The letters for which [loop_body] has a branch, either on the first
    character of a control or, for [x], on the characters after it. *)
Definition control_letters : QString := qs "abfnrtv\EglLuUx".

(** The case modes that a segment does not end. *)
Definition persistent (m : CaseChange) : Prop :=
  m = CaseChange_Lower \/ m = CaseChange_Upper.

(** Two sets of locals that the scanner cannot tell apart: outside a
    control only [in_control] is read; inside one, the bracket character is
    read only under [\g] and the name only once a bracket is stored. *)
Definition same_scan_state (l1 l2 : Locals) : Prop :=
  in_control l1 = in_control l2
  /\ (in_control l1 = true ->
      control_char l1 = control_char l2
      /\ invalid_control l1 = invalid_control l2
      /\ control_x_hex l1 = control_x_hex l2
      /\ control_x6_hex l1 = control_x6_hex l2
      /\ in_hex6 l1 = in_hex6 l2
      /\ (control_char l1 = ch "g" ->
          backref_bracket_start_char l1 = backref_bracket_start_char l2
          /\ (backref_bracket_start_char l1 <> QChar_null ->
              backref_name l1 = backref_name l2))).

(** ** Properties *)

Section Properties.

Context {Q : Qt}.
Variable sre : SPCRE.
Variable text : QString.
Variable cgo : list (Z * Z).

Local Abbreviation step := (loop_body sre text cgo).
Local Abbreviation run := (scan sre text cgo).

(** *** The case-transform engine *)

Lemma accumulate_nil this : accumulateReplcementText this [] = this.
Proof.
  destruct this as [t m]; unfold accumulateReplcementText; simpl.
  now rewrite app_nil_r.
Qed.

Lemma accumulate_None t seg :
  accumulateReplcementText (mkBuilder t CaseChange_None) seg
  = mkBuilder (t ++ seg) CaseChange_None.
Proof.
  destruct seg; unfold accumulateReplcementText; simpl;
    [ now rewrite app_nil_r | reflexivity ].
Qed.

(** *** Single transitions of the scanner *)

Lemma isDigit_ascii_false (c : QChar) :
  isDigit_ascii Q -> 0 <= c < 128 -> (c < ch "0" \/ ch "9" < c) ->
  QChar_isDigit c = false.
Proof.
  intros HA Hr Hc. rewrite (HA c Hr).
  change (ch "0") with 48 in *. change (ch "9") with 57 in *.
  destruct Hc; [ apply andb_false_iff; left | apply andb_false_iff; right ];
    apply Z.leb_gt; lia.
Qed.

Lemma step_literal this l c :
  in_control l = false -> c <> ch "\" ->
  step (this, l) c = (accumulateReplcementText this [c], l).
Proof.
  intros Hl Hc. unfold loop_body. rewrite Hl.
  apply Z.eqb_neq in Hc. now rewrite Hc.
Qed.

Lemma step_backslash this l :
  in_control l = false ->
  step (this, l) (ch "\")
  = (this, mkLocals (backref_bracket_start_char l) QChar_null (backref_name l)
                    [ch "\"] [] [] false true).
Proof.
  intros Hl. unfold loop_body. now rewrite Hl.
Qed.

Ltac start_step HA Hl Hc :=
  unfold loop_body; rewrite Hl; cbn [invalid_control set_invalid_control
    control_char set_control_char]; rewrite Hc; cbn [isNull QChar_null Z.eqb];
  rewrite (isDigit_ascii_false _ HA) by (cbv; intuition congruence);
  reflexivity.

Lemma step_start_E this l :
  isDigit_ascii Q -> in_control l = true -> control_char l = QChar_null ->
  step (this, l) (ch "E")
  = (mkBuilder (m_finalText this) CaseChange_None,
     set_in_control (classified l (ch "E")) false).
Proof. intros HA Hl Hc. start_step HA Hl Hc. Qed.

Lemma step_start_l this l :
  isDigit_ascii Q -> in_control l = true -> control_char l = QChar_null ->
  step (this, l) (ch "l")
  = (trySetCaseChange this CaseChange_LowerNext,
     set_in_control (classified l (ch "l")) false).
Proof. intros HA Hl Hc. start_step HA Hl Hc. Qed.

Lemma step_start_L this l :
  isDigit_ascii Q -> in_control l = true -> control_char l = QChar_null ->
  step (this, l) (ch "L")
  = (trySetCaseChange this CaseChange_Lower,
     set_in_control (classified l (ch "L")) false).
Proof. intros HA Hl Hc. start_step HA Hl Hc. Qed.

Lemma step_start_u this l :
  isDigit_ascii Q -> in_control l = true -> control_char l = QChar_null ->
  step (this, l) (ch "u")
  = (trySetCaseChange this CaseChange_UpperNext,
     set_in_control (classified l (ch "u")) false).
Proof. intros HA Hl Hc. start_step HA Hl Hc. Qed.

Lemma step_start_U this l :
  isDigit_ascii Q -> in_control l = true -> control_char l = QChar_null ->
  step (this, l) (ch "U")
  = (trySetCaseChange this CaseChange_Upper,
     set_in_control (classified l (ch "U")) false).
Proof. intros HA Hl Hc. start_step HA Hl Hc. Qed.

Lemma step_start_g this l :
  isDigit_ascii Q -> in_control l = true -> control_char l = QChar_null ->
  step (this, l) (ch "g")
  = (this, set_backref_bracket_start_char (classified l (ch "g")) QChar_null).
Proof. intros HA Hl Hc. start_step HA Hl Hc. Qed.

Lemma step_start_x this l :
  isDigit_ascii Q -> in_control l = true -> control_char l = QChar_null ->
  step (this, l) (ch "x") = (this, classified l (ch "x")).
Proof. intros HA Hl Hc. start_step HA Hl Hc. Qed.

Lemma step_start_n this l :
  isDigit_ascii Q -> in_control l = true -> control_char l = QChar_null ->
  step (this, l) (ch "n")
  = (accumulateReplcementText this [10],
     set_in_control (classified l (ch "n")) false).
Proof. intros HA Hl Hc. start_step HA Hl Hc. Qed.

Lemma step_start_q this l :
  isDigit_ascii Q -> in_control l = true -> control_char l = QChar_null ->
  step (this, l) (ch "q") = (this, classified l (ch "q")).
Proof. intros HA Hl Hc. start_step HA Hl Hc. Qed.

Lemma step_start_digit this l c :
  in_control l = true -> control_char l = QChar_null ->
  QChar_isDigit c = true ->
  step (this, l) c
  = (accumulateReplcementText this
       (if (0 <=? QChar_digitValue c) && (QChar_digitValue c <? capture_count cgo)
        then capture_text text cgo (QChar_digitValue c)
        else invalid_control l ++ [c]),
     set_in_control (classified l c) false).
Proof.
  intros Hl Hc Hd. unfold loop_body. rewrite Hl.
  cbn [invalid_control set_invalid_control control_char set_control_char].
  rewrite Hc. cbn [isNull QChar_null Z.eqb]. rewrite Hd.
  now destruct ((0 <=? QChar_digitValue c)
                && (QChar_digitValue c <? capture_count cgo)).
Qed.

Ltac norm_locals :=
  unfold classified, noted, set_backref_bracket_start_char, set_control_char,
    set_backref_name, set_invalid_control, set_control_x_hex,
    set_control_x6_hex, set_in_hex6, set_in_control;
  cbn [backref_bracket_start_char control_char backref_name invalid_control
       control_x_hex control_x6_hex in_hex6 in_control app fst snd].

(** Inside [\g]: the bracket. *)
Lemma step_g_open this l c :
  in_control l = true -> control_char l = ch "g" ->
  backref_bracket_start_char l = QChar_null ->
  c = ch "{" \/ c = ch "<" ->
  step (this, l) c
  = (this, set_backref_name (set_backref_bracket_start_char (noted l c) c) []).
Proof.
  intros Hl Hc Hb Ho. unfold loop_body. rewrite Hl. norm_locals.
  rewrite Hc, Hb. destruct Ho; subst c; reflexivity.
Qed.

Lemma step_g_no_bracket this l c :
  in_control l = true -> control_char l = ch "g" ->
  backref_bracket_start_char l = QChar_null ->
  c <> ch "{" -> c <> ch "<" ->
  step (this, l) c
  = (accumulateReplcementText this (invalid_control l ++ [c]),
     set_in_control (noted l c) false).
Proof.
  intros Hl Hc Hb H1 H2. unfold loop_body. rewrite Hl. norm_locals.
  rewrite Hc, Hb. apply Z.eqb_neq in H1, H2.
  cbn [isNull QChar_null Z.eqb]. change (ch "g" =? 0) with false.
  change (ch "g" =? ch "g") with true. cbv iota. now rewrite H1, H2.
Qed.

(** Inside [\g{] or [\g<]: a character other than the closer joins the
    name. *)
Lemma step_g_name this l c :
  in_control l = true -> control_char l = ch "g" ->
  backref_bracket_start_char l = ch "{" \/ backref_bracket_start_char l = ch "<" ->
  c <> closer (backref_bracket_start_char l) ->
  step (this, l) c
  = (this, set_backref_name (noted l c) (backref_name l ++ [c])).
Proof.
  intros Hl Hc Hb Hn. unfold loop_body. rewrite Hl. norm_locals.
  rewrite Hc. apply Z.eqb_neq in Hn.
  destruct Hb as [Hb | Hb]; rewrite Hb in *;
    change (isNull (ch "g")) with false;
    change (ch "g" =? ch "g") with true; cbv iota.
  - change (isNull (ch "{")) with false. cbv iota.
    change (closer (ch "{")) with (ch "}") in Hn. rewrite Hn.
    change (ch "{" =? ch "<") with false.
    now rewrite andb_false_r.
  - change (isNull (ch "<")) with false. cbv iota.
    change (closer (ch "<")) with (ch ">") in Hn. rewrite Hn.
    change (ch "<" =? ch "{") with false.
    now rewrite andb_false_r.
Qed.

(** Inside [\g{] or [\g<]: the closer resolves the reference. *)
Lemma step_g_close this l :
  in_control l = true -> control_char l = ch "g" ->
  backref_bracket_start_char l = ch "{" \/ backref_bracket_start_char l = ch "<" ->
  let c := closer (backref_bracket_start_char l) in
  let parsed := QString_toInt (backref_name l) in
  let backref_number :=
    if (parsed =? 0) && negb (QString_eqb (backref_name l) (qs "0"))
    then getCaptureStringNumber sre (backref_name l) else parsed in
  step (this, l) c
  = (accumulateReplcementText this
       (if (0 <=? backref_number) && (backref_number <? capture_count cgo)
        then capture_text text cgo backref_number
        else invalid_control l ++ [c]),
     set_in_control (noted l c) false).
Proof.
  intros Hl Hc Hb c parsed backref_number.
  unfold loop_body. rewrite Hl. norm_locals. rewrite Hc.
  change (isNull (ch "g")) with false.
  change (ch "g" =? ch "g") with true. cbv iota.
  fold parsed. fold backref_number.
  destruct Hb as [Hb | Hb]; subst c; rewrite Hb;
    [ change (isNull (ch "{")) with false; change (closer (ch "{")) with (ch "}");
      change (ch "}" =? ch "}") with true; change (ch "{" =? ch "{") with true
    | change (isNull (ch "<")) with false; change (closer (ch "<")) with (ch ">");
      change (ch ">" =? ch "}") with false; change (ch ">" =? ch ">") with true;
      change (ch "<" =? ch "<") with true ];
    cbn [andb orb]; cbv iota;
    destruct ((0 <=? backref_number) && (backref_number <? capture_count cgo));
    reflexivity.
Qed.

Lemma scan_g_name this name : forall br bn inv xh x6 h6,
  br = ch "{" \/ br = ch "<" ->
  ~ In (closer br) name ->
  run (this, mkLocals br (ch "g") bn inv xh x6 h6 true) name
  = (this, mkLocals br (ch "g") (bn ++ name) (inv ++ name) xh x6 h6 true).
Proof.
  induction name as [ | c name IH ]; intros br bn inv xh x6 h6 Hb Hn.
  - unfold scan. cbn [fold_left]. now rewrite !app_nil_r.
  - unfold scan in *. cbn [fold_left].
    rewrite step_g_name; trivial.
    + norm_locals. rewrite IH; trivial.
      * now rewrite <- !app_assoc.
      * intros HI. apply Hn. now right.
    + intros E. apply Hn. left. now rewrite E.
Qed.

(** *** Hexadecimal digits *)

Lemma is_hex_range c : is_hex c = true -> ch "0" <= c <= ch "f".
Proof.
  unfold is_hex. change (ch "0") with 48. change (ch "9") with 57.
  change (ch "a") with 97. change (ch "f") with 102.
  change (ch "A") with 65. change (ch "F") with 70.
  intros H. apply orb_true_iff in H. destruct H as [H | H];
    [ apply orb_true_iff in H; destruct H as [H | H] | ];
    apply andb_true_iff in H; destruct H as [H1 H2];
    apply Z.leb_le in H1, H2; lia.
Qed.

Lemma hex_digit_value_range c :
  is_hex c = true -> 0 <= hex_digit_value c <= 15.
Proof.
  unfold is_hex, hex_digit_value.
  change (ch "0") with 48. change (ch "9") with 57.
  change (ch "a") with 97. change (ch "f") with 102.
  change (ch "A") with 65. change (ch "F") with 70.
  destruct (48 <=? c) eqn:E1, (c <=? 57) eqn:E2, (97 <=? c) eqn:E3,
    (c <=? 102) eqn:E4, (65 <=? c) eqn:E5, (c <=? 70) eqn:E6;
    cbn [andb orb]; intros H; try discriminate H;
    repeat match goal with
           | E : (_ <=? _) = true |- _ => apply Z.leb_le in E
           | E : (_ <=? _) = false |- _ => apply Z.leb_gt in E
           end; lia.
Qed.

Lemma QString_eqb_eq s t : QString_eqb s t = true <-> s = t.
Proof.
  unfold QString_eqb. destruct (list_eq_dec Z.eq_dec s t); split;
    intros; congruence.
Qed.

Lemma QChar_of_uint_small v : 0 <= v <= 65535 -> QChar_of_uint v = v.
Proof.
  intros H. unfold QChar_of_uint. change 65535 with (Z.ones 16).
  rewrite Z.land_ones by lia. apply Z.mod_small. change (2 ^ 16) with 65536. lia.
Qed.

(** [IsValidHex6] accepts the strings of hexadecimal digits of length 2,
    4 or 6 whose 6-digit form starts with [0] or with [10]. *)
Lemma IsValidHex6_spec hv :
  IsValidHex6 hv = true
  <-> forallb is_hex hv = true
      /\ (QString_length hv = 2 \/ QString_length hv = 4
          \/ (QString_length hv = 6
              /\ (QString_left 1 hv = qs "0" \/ QString_left 2 hv = qs "10"))).
Proof.
  unfold IsValidHex6.
  pose proof (QString_eqb_eq (QString_left 1 hv) (qs "0")) as E1.
  pose proof (QString_eqb_eq (QString_left 2 hv) (qs "10")) as E2.
  assert (L : 0 <= QString_length hv) by (unfold QString_length; lia).
  destruct (Z.ltb_spec (QString_length hv) 2), (Z.eqb_spec (QString_length hv) 3),
    (Z.eqb_spec (QString_length hv) 5), (Z.gtb_spec (QString_length hv) 6),
    (Z.eqb_spec (QString_length hv) 2), (Z.eqb_spec (QString_length hv) 4);
    cbn [orb]; try lia;
    try (split; [ discriminate | intros [_ [ | [ | [ ] ] ] ]; lia ]);
    destruct (forallb is_hex hv); cbn [negb];
    try (split; [ discriminate | intros [ ]; discriminate ]);
    try (split; [ auto | reflexivity ]).
  destruct (QString_eqb (QString_left 1 hv) (qs "0")),
    (QString_eqb (QString_left 2 hv) (qs "10")); cbn [orb];
    split; try discriminate; try reflexivity;
    try (intros _; split; trivial; right; right; split; [ lia | ];
         first [ left; now apply E1 | right; now apply E2 ]).
  intros [_ [ | [ | [_ [ Hx | Hx ] ] ] ]]; try lia.
  - apply E1 in Hx. discriminate.
  - apply E2 in Hx. discriminate.
Qed.

(** *** Inside [\x] *)

Ltac in_x Hl Hc :=
  unfold loop_body; rewrite Hl; norm_locals; rewrite Hc;
  change (isNull (ch "x")) with false;
  change (ch "x" =? ch "g") with false;
  change (ch "x" =? ch "x") with true; cbv iota.

Lemma step_x_brace this l :
  in_control l = true -> control_char l = ch "x" -> in_hex6 l = false ->
  step (this, l) (ch "{") = (this, set_in_hex6 (noted l (ch "{")) true).
Proof. intros Hl Hc Hh. in_x Hl Hc. now rewrite Hh. Qed.

Lemma step_x6_digit this l c :
  in_control l = true -> control_char l = ch "x" -> in_hex6 l = true ->
  is_hex c = true ->
  step (this, l) c
  = (this, set_control_x6_hex (noted l c) (control_x6_hex l ++ [c])).
Proof.
  intros Hl Hc Hh Hx. in_x Hl Hc. rewrite Hh, Hx.
  pose proof (is_hex_range c Hx) as R.
  change (ch "0") with 48 in R. change (ch "f") with 102 in R.
  assert (E : (c =? ch "}") = false) by (apply Z.eqb_neq; change (ch "}") with 125; lia).
  rewrite E. now rewrite andb_false_r.
Qed.

Lemma step_x6_close this l :
  in_control l = true -> control_char l = ch "x" -> in_hex6 l = true ->
  step (this, l) (ch "}")
  = if IsValidHex6 (control_x6_hex l)
    then (accumulateReplcementText this (hex6_segment (control_x6_hex l)),
          set_control_x6_hex
            (set_in_hex6 (set_in_control (noted l (ch "}")) false) false) [])
    else (accumulateReplcementText this (invalid_control l ++ [ch "}"]),
          set_in_control (noted l (ch "}")) false).
Proof.
  intros Hl Hc Hh. in_x Hl Hc. rewrite Hh.
  change (ch "}" =? ch "{") with false. change (ch "}" =? ch "}") with true.
  change (is_hex (ch "}")) with false. cbn [andb negb].
  destruct (IsValidHex6 (control_x6_hex l)); [ | reflexivity ].
  unfold hex6_segment.
  now destruct ((QString_length (control_x6_hex l) =? 2)
                || (QString_length (control_x6_hex l) =? 4)).
Qed.

Lemma step_x6_abort this l c :
  in_control l = true -> control_char l = ch "x" -> in_hex6 l = true ->
  is_hex c = false -> c <> ch "}" ->
  step (this, l) c
  = (accumulateReplcementText this (invalid_control l ++ [c]),
     set_in_control (noted l c) false).
Proof.
  intros Hl Hc Hh Hx Hn. in_x Hl Hc. rewrite Hh, Hx.
  apply Z.eqb_neq in Hn. rewrite Hn. now rewrite andb_false_r.
Qed.

Lemma scan_x6_digits this s : forall br bn inv xh x6,
  forallb is_hex s = true ->
  run (this, mkLocals br (ch "x") bn inv xh x6 true true) s
  = (this, mkLocals br (ch "x") bn (inv ++ s) xh (x6 ++ s) true true).
Proof.
  induction s as [ | c s IH ]; intros br bn inv xh x6 Hs.
  - unfold scan. cbn [fold_left]. now rewrite !app_nil_r.
  - cbn [forallb] in Hs. apply andb_true_iff in Hs. destruct Hs as [Hc Hs].
    unfold scan in *. cbn [fold_left].
    rewrite step_x6_digit by (reflexivity || exact Hc).
    norm_locals. rewrite IH by exact Hs. now rewrite <- !app_assoc.
Qed.

(** The scanner after [\x{] and a run of hexadecimal digits. *)
Lemma scan_x6_opened this l s :
  isDigit_ascii Q -> in_control l = false ->
  forallb is_hex s = true ->
  run (this, l) (qs "\x{" ++ s)
  = (this, mkLocals (backref_bracket_start_char l) (ch "x") (backref_name l)
                    (qs "\x{" ++ s) [] s true true).
Proof.
  intros HA Hl Hs. unfold scan. rewrite fold_left_app. cbn [fold_left qs].
  rewrite step_backslash by exact Hl.
  rewrite (step_start_x _ _ HA) by reflexivity.
  rewrite step_x_brace by reflexivity. norm_locals.
  exact (scan_x6_digits this s _ _ [ch "\"; ch "x"; ch "{"] [] [] Hs).
Qed.

(** The character after an unclassified control character: the branch
    "Invalid or unsupported control". *)
Lemma step_unsupported this l c :
  in_control l = true -> control_char l <> QChar_null ->
  control_char l <> ch "g" -> control_char l <> ch "x" ->
  step (this, l) c
  = (accumulateReplcementText this (invalid_control l ++ [c]),
     set_in_control (noted l c) false).
Proof.
  intros Hl Hn Hg Hx. unfold loop_body. rewrite Hl.
  cbn [invalid_control set_invalid_control control_char].
  apply Z.eqb_neq in Hn, Hg, Hx. unfold isNull.
  change QChar_null with 0 in Hn. now rewrite Hn, Hg, Hx.
Qed.

(** *** The whole call *)

Lemma Build_invalid this pattern out :
  isValid sre = false ->
  BuildReplacementText this sre text cgo pattern out
  = (false, out, resetState this).
Proof. intros H. unfold BuildReplacementText. now rewrite H. Qed.

Lemma Build_scan this pattern out :
  isValid sre = true -> QString_contains pattern (ch "\") = true ->
  BuildReplacementText this sre text cgo pattern out
  = (true,
     m_finalText (finish (run (resetState this, locals_init) pattern)),
     finish (run (resetState this, locals_init) pattern)).
Proof. intros Hv Hc. unfold BuildReplacementText. now rewrite Hv, Hc. Qed.

Ltac scan_steps HA :=
  repeat first
    [ rewrite step_backslash by reflexivity
    | rewrite step_literal by (first [reflexivity | cbv; congruence])
    | rewrite (step_start_E _ _ HA) by reflexivity
    | rewrite (step_start_l _ _ HA) by reflexivity
    | rewrite (step_start_L _ _ HA) by reflexivity
    | rewrite (step_start_u _ _ HA) by reflexivity
    | rewrite (step_start_U _ _ HA) by reflexivity
    | rewrite (step_start_g _ _ HA) by reflexivity
    | rewrite (step_start_x _ _ HA) by reflexivity
    | rewrite (step_start_n _ _ HA) by reflexivity
    | rewrite (step_start_q _ _ HA) by reflexivity
    | rewrite step_unsupported by (first [reflexivity | cbv; congruence]) ].

(** *** The fast path, the result flag and the case directives *)

(** C2: [BuildReplacementText] returns false exactly when [sre.isValid()]
    is false; for a valid regex it returns true whatever the replacement
    pattern is. *)
Theorem BuildReplacementText_success_iff_valid this pattern out :
  success (BuildReplacementText this sre text cgo pattern out) = isValid sre
  /\ (success (BuildReplacementText this sre text cgo pattern out) = false
      <-> isValid sre = false).
Proof.
  assert (E : success (BuildReplacementText this sre text cgo pattern out)
              = isValid sre).
  { unfold BuildReplacementText.
    destruct (isValid sre); cbn [negb]; [ | reflexivity ].
    destruct (negb (QString_contains pattern (ch "\"))); reflexivity. }
  split; [ exact E | now rewrite E ].
Qed.

(** C3: a pattern without a backslash, with a valid regex, comes back
    verbatim and the call succeeds. *)
Theorem BuildReplacementText_no_backslash this pattern out :
  isValid sre = true ->
  QString_contains pattern (ch "\") = false ->
  success (BuildReplacementText this sre text cgo pattern out) = true
  /\ out_text (BuildReplacementText this sre text cgo pattern out) = pattern.
Proof.
  intros Hv Hc. unfold BuildReplacementText. rewrite Hv, Hc. now split.
Qed.

(** C10: an empty segment yields no text and leaves the builder, hence the
    case mode, as it was; a pending LowerNext or UpperNext is still there
    for the next non-empty segment and changes that segment's first
    character. *)
Theorem processTextSegement_empty this t c rest :
  processTextSegement this [] = ([], this)
  /\ accumulateReplcementText this [] = this
  /\ accumulateReplcementText
       (accumulateReplcementText (mkBuilder t CaseChange_LowerNext) [])
       (c :: rest)
     = mkBuilder (t ++ QChar_toLower c :: rest) CaseChange_None
  /\ accumulateReplcementText
       (accumulateReplcementText (mkBuilder t CaseChange_UpperNext) [])
       (c :: rest)
     = mkBuilder (t ++ QChar_toUpper c :: rest) CaseChange_None.
Proof.
  split; [ reflexivity | ].
  split; [ apply accumulate_nil | ].
  rewrite !accumulate_nil. split; reflexivity.
Qed.

(** C8: a case request is taken only when the mode is None and is dropped
    otherwise; the directives l, L, u, U are such requests; E sets the mode
    to None whatever it was; and the pattern [\l\uWORD] gives [wORD]. *)
Theorem case_change_first_wins this out :
  isDigit_ascii Q ->
  isValid sre = true ->
  QChar_toLower (ch "W") = ch "w" ->
  (forall b state, m_caseChangeState b = CaseChange_None ->
     trySetCaseChange b state = mkBuilder (m_finalText b) state)
  /\ (forall b state, m_caseChangeState b <> CaseChange_None ->
        trySetCaseChange b state = b)
  /\ (forall b l, in_control l = true -> control_char l = QChar_null ->
        fst (step (b, l) (ch "l")) = trySetCaseChange b CaseChange_LowerNext
        /\ fst (step (b, l) (ch "L")) = trySetCaseChange b CaseChange_Lower
        /\ fst (step (b, l) (ch "u")) = trySetCaseChange b CaseChange_UpperNext
        /\ fst (step (b, l) (ch "U")) = trySetCaseChange b CaseChange_Upper
        /\ fst (step (b, l) (ch "E"))
           = mkBuilder (m_finalText b) CaseChange_None)
  /\ out_text (BuildReplacementText this sre text cgo (qs "\l\uWORD") out)
     = qs "wORD".
Proof.
  intros HA Hv HW. repeat split.
  - intros b state Hb. unfold trySetCaseChange. now rewrite Hb.
  - intros b state Hb. unfold trySetCaseChange.
    destruct (m_caseChangeState b); trivial. now elim Hb.
  - now rewrite step_start_l.
  - now rewrite step_start_L.
  - now rewrite step_start_u.
  - now rewrite step_start_U.
  - now rewrite step_start_E.
  - rewrite Build_scan by (trivial; reflexivity).
    unfold out_text, scan. cbn [fst snd fold_left qs].
    scan_steps HA.
    change (ch "W") with 87 in HW. change (ch "w") with 119 in HW.
    cbn. rewrite HW. reflexivity.
Qed.

(** C1, at the pattern [\q\n]: the unrecognised [q] is only recorded; the
    backslash that follows is taken into the invalid sequence, which is
    put out as the three characters [\q\], and the [n] after it is plain
    text. *)
Theorem unrecognized_control_takes_next_character this out :
  isDigit_ascii Q ->
  isValid sre = true ->
  run (resetState this, locals_init) [ch "\"; ch "q"]
  = (resetState this, classified
       (mkLocals QChar_null QChar_null [] [ch "\"] [] [] false true) (ch "q"))
  /\ out_text (BuildReplacementText this sre text cgo (qs "\q\n") out)
     = [ch "\"; ch "q"; ch "\"; ch "n"].
Proof.
  intros HA Hv. split.
  - unfold scan. cbn [fold_left]. now scan_steps HA.
  - rewrite Build_scan by (trivial; reflexivity).
    unfold out_text, scan. cbn [fst snd fold_left qs].
    scan_steps HA. reflexivity.
Qed.

(** C4: backslash followed by a digit [c] of value [d].  If [d] is below
    the number of capture spans, the text of span [d] is accumulated as one
    segment, otherwise the two characters backslash and [c]; either way the
    scanner is out of the control right after the digit, and a character
    that follows (such as the 2 of [\12]) is accumulated on its own as plain
    text. *)
Theorem numbered_backreference this l c :
  in_control l = false ->
  QChar_isDigit c = true ->
  0 <= QChar_digitValue c ->
  let d := QChar_digitValue c in
  let segment :=
    if d <? capture_count cgo then capture_text text cgo d
    else [ch "\"; c] in
  fst (run (this, l) [ch "\"; c]) = accumulateReplcementText this segment
  /\ in_control (snd (run (this, l) [ch "\"; c])) = false
  /\ forall c2, c2 <> ch "\" ->
       fst (run (this, l) [ch "\"; c; c2])
       = accumulateReplcementText (accumulateReplcementText this segment) [c2]
       /\ in_control (snd (run (this, l) [ch "\"; c; c2])) = false.
Proof.
  intros Hl Hd Hnn d segment.
  assert (E : run (this, l) [ch "\"; c]
              = (accumulateReplcementText this segment,
                 set_in_control
                   (classified
                      (mkLocals (backref_bracket_start_char l) QChar_null
                                (backref_name l) [ch "\"] [] [] false true) c)
                   false)).
  { unfold scan. cbn [fold_left].
    rewrite step_backslash by exact Hl.
    rewrite step_start_digit by (reflexivity || exact Hd).
    cbn [invalid_control app]. subst segment d.
    apply Z.leb_le in Hnn. now rewrite Hnn. }
  split; [ now rewrite E | ].
  split; [ now rewrite E | ].
  intros c2 Hc2.
  change [ch "\"; c; c2] with ([ch "\"; c] ++ [c2]).
  unfold scan in *. rewrite fold_left_app, E. cbn [fold_left].
  rewrite step_literal by (reflexivity || exact Hc2). now split.
Qed.

(** The scanner after [\g{] or [\g<] and the characters of a name. *)
Lemma scan_g_opened this l open name :
  isDigit_ascii Q -> in_control l = false ->
  open = ch "{" \/ open = ch "<" ->
  ~ In (closer open) name ->
  run (this, l) ([ch "\"; ch "g"; open] ++ name)
  = (this, mkLocals open (ch "g") name ([ch "\"; ch "g"; open] ++ name)
                    [] [] false true).
Proof.
  intros HA Hl Ho Hn. unfold scan. rewrite fold_left_app. cbn [fold_left].
  rewrite step_backslash by exact Hl.
  rewrite (step_start_g _ _ HA) by reflexivity.
  rewrite step_g_open by (reflexivity || exact Ho).
  norm_locals.
  exact (scan_g_name this name open [] [ch "\"; ch "g"; open] [] [] false Ho Hn).
Qed.

(** C5: the pattern [\g{name}] or [\g<name>], where [name] is any text
    without the matching closer (the other bracket's closer may occur in
    it).  The index is the parsed integer when that is nonzero or the name
    is ["0"], otherwise what the name resolver returns; with the index in
    range the span's text is accumulated as one segment, otherwise the
    whole raw sequence is, and the scanner is out of the control. *)
Theorem named_backreference this l open name :
  isDigit_ascii Q ->
  in_control l = false ->
  open = ch "{" \/ open = ch "<" ->
  ~ In (closer open) name ->
  let raw := [ch "\"; ch "g"; open] ++ name ++ [closer open] in
  let parsed := QString_toInt name in
  let index :=
    if negb (parsed =? 0) || QString_eqb name (qs "0") then parsed
    else getCaptureStringNumber sre name in
  let segment :=
    if (0 <=? index) && (index <? capture_count cgo)
    then capture_text text cgo index else raw in
  closer (ch "{") = ch "}" /\ closer (ch "<") = ch ">"
  /\ fst (run (this, l) raw) = accumulateReplcementText this segment
  /\ in_control (snd (run (this, l) raw)) = false.
Proof.
  intros HA Hl Ho Hn raw parsed index segment.
  split; [ reflexivity | ]. split; [ reflexivity | ].
  assert (E : run (this, l) raw
              = (accumulateReplcementText this segment,
                 set_in_control
                   (noted (mkLocals open (ch "g") name
                             ([ch "\"; ch "g"; open] ++ name) [] [] false true)
                          (closer open)) false)).
  { subst raw. unfold scan. rewrite app_assoc, fold_left_app.
    fold (run (this, l) ([ch "\"; ch "g"; open] ++ name)).
    rewrite scan_g_opened by assumption. cbn [fold_left].
    pose proof (step_g_close this
      (mkLocals open (ch "g") name ([ch "\"; ch "g"; open] ++ name)
                [] [] false true) eq_refl eq_refl Ho) as S.
    cbn [backref_bracket_start_char backref_name invalid_control] in S.
    cbv zeta in S. rewrite S. f_equal. f_equal.
    subst segment index parsed.
    rewrite <- app_assoc.
    destruct (QString_toInt name =? 0), (QString_eqb name (qs "0"));
      reflexivity. }
  now rewrite E.
Qed.

(** *** Unfinished controls *)

Ltac split_ifs :=
  repeat match goal with
         | |- context [if ?b then _ else _] => destruct b
         end.

(** While the scanner stays inside a control, the builder is not touched
    and the character is added to [invalid_control]. *)
Lemma step_stays_in_control this l c :
  in_control l = true ->
  in_control (snd (step (this, l) c)) = true ->
  fst (step (this, l) c) = this
  /\ invalid_control (snd (step (this, l) c)) = invalid_control l ++ [c].
Proof.
  intros Hl. unfold loop_body. rewrite Hl.
  destruct l as [br cc bn inv xh x6 h6 ic]. norm_locals.
  split_ifs; norm_locals; intros H; try discriminate H; now split.
Qed.

(** Only a backslash takes the scanner into a control; it starts
    [invalid_control] afresh. *)
Lemma step_enters_control this l c :
  in_control l = false ->
  in_control (snd (step (this, l) c)) = true ->
  c = ch "\" /\ fst (step (this, l) c) = this
  /\ invalid_control (snd (step (this, l) c)) = [ch "\"].
Proof.
  intros Hl. unfold loop_body. rewrite Hl.
  destruct (c =? ch "\") eqn:E; norm_locals; intros H.
  - apply Z.eqb_eq in E. subst c. now repeat split.
  - congruence.
Qed.

Lemma scan_snoc st pattern c :
  run st (pattern ++ [c]) = step (run st pattern) c.
Proof. unfold scan. now rewrite fold_left_app. Qed.

Lemma scan_in_control_inv pattern : forall this l,
  in_control l = false ->
  in_control (snd (run (this, l) pattern)) = true ->
  exists pre rest,
    pattern = pre ++ ch "\" :: rest
    /\ in_control (snd (run (this, l) pre)) = false
    /\ (forall r1 r2, rest = r1 ++ r2 ->
          in_control (snd (run (this, l) (pre ++ ch "\" :: r1))) = true)
    /\ fst (run (this, l) pattern) = fst (run (this, l) pre)
    /\ invalid_control (snd (run (this, l) pattern)) = ch "\" :: rest.
Proof.
  induction pattern as [ | c pattern IH ] using rev_ind; intros this l Hl Hin.
  - unfold scan in Hin. cbn in Hin. congruence.
  - rewrite scan_snoc in *.
    destruct (run (this, l) pattern) as [b1 l1] eqn:E.
    destruct (in_control l1) eqn:E1.
    + destruct (step_stays_in_control b1 l1 c E1 Hin) as [Hb Hi].
      destruct (IH this l Hl) as (pre & rest & Hp & Hpre & Hmid & Hf & Hinv).
      { now rewrite E. }
      exists pre, (rest ++ [c]). rewrite E in Hf, Hinv. cbn [fst snd] in Hf, Hinv.
      split; [ rewrite Hp; now rewrite <- app_assoc | ].
      split; [ exact Hpre | ].
      split; [ | split; [ now rewrite Hb | now rewrite Hi, Hinv ] ].
      intros r1 r2 Hr.
      destruct r2 as [ | x r2 ] using rev_ind.
      * rewrite app_nil_r in Hr. subst r1.
        change (ch "\" :: rest ++ [c]) with ((ch "\" :: rest) ++ [c]).
        rewrite app_assoc, <- Hp, scan_snoc, E. exact Hin.
      * rewrite app_assoc in Hr. apply app_inj_tail in Hr.
        destruct Hr as [Hr _]. now apply (Hmid r1 r2).
    + destruct (step_enters_control b1 l1 c E1 Hin) as (Hc & Hb & Hi).
      exists pattern, []. subst c.
      split; [ reflexivity | ].
      split; [ now rewrite E | ].
      split; [ | split; [ now rewrite E, Hb | now rewrite Hi ] ].
      intros r1 r2 Hr. symmetry in Hr. apply app_eq_nil in Hr.
      destruct Hr as [Hr _]. subst r1. rewrite scan_snoc, E. exact Hin.
Qed.

(** C9: when the pattern ends inside a control, the pattern splits at the
    backslash that started that control; the scanner is outside any control
    before it and inside one at every later position, and the text put out
    is what was built before the backslash followed by one segment holding
    the backslash and everything after it.  For [\g{year] that is the text
    [\g{year]. *)
Theorem unterminated_control this out :
  isDigit_ascii Q ->
  isValid sre = true ->
  (forall pattern,
     in_control (snd (run (resetState this, locals_init) pattern)) = true ->
     exists pre rest,
       pattern = pre ++ ch "\" :: rest
       /\ in_control (snd (run (resetState this, locals_init) pre)) = false
       /\ (forall r1 r2, rest = r1 ++ r2 ->
             in_control (snd (run (resetState this, locals_init)
                                  (pre ++ ch "\" :: r1))) = true)
       /\ invalid_control (snd (run (resetState this, locals_init) pattern))
          = ch "\" :: rest
       /\ BuildReplacementText this sre text cgo pattern out
          = (true,
             m_finalText
               (accumulateReplcementText
                  (fst (run (resetState this, locals_init) pre))
                  (ch "\" :: rest)),
             accumulateReplcementText
               (fst (run (resetState this, locals_init) pre))
               (ch "\" :: rest)))
  /\ out_text (BuildReplacementText this sre text cgo (qs "\g{year") out)
     = qs "\g{year".
Proof.
  intros HA Hv. split.
  - intros pattern Hin.
    destruct (scan_in_control_inv pattern (resetState this) locals_init
                eq_refl Hin) as (pre & rest & Hp & Hpre & Hmid & Hf & Hinv).
    exists pre, rest. repeat (split; trivial).
    rewrite Build_scan; trivial.
    + destruct (run (resetState this, locals_init) pattern) as [b1 l1].
      cbn [fst snd] in *. unfold finish. now rewrite Hin, Hinv, Hf.
    + rewrite Hp. unfold QString_contains. rewrite existsb_app.
      cbn [existsb]. rewrite Z.eqb_refl. cbn [orb]. apply orb_true_r.
  - rewrite Build_scan by (trivial; reflexivity).
    change (qs "\g{year") with ([ch "\"; ch "g"; ch "{"] ++ qs "year").
    rewrite (scan_g_opened (resetState this) locals_init (ch "{") (qs "year")
               HA eq_refl (or_introl eq_refl)).
    + unfold finish, out_text. cbn [fst snd in_control invalid_control].
      unfold resetState. now rewrite accumulate_None.
    + cbv. intuition discriminate.
Qed.

(** *** Braced hexadecimal escapes *)

Lemma toUInt16_2 a b :
  is_hex a = true -> is_hex b = true ->
  QString_toUInt16 [a; b] = 16 * hex_digit_value a + hex_digit_value b.
Proof.
  intros Ha Hb. unfold QString_toUInt16. cbn [forallb fold_left].
  rewrite Ha, Hb. cbn [andb]. lia.
Qed.

Lemma toUInt16_4 a b c d :
  is_hex a = true -> is_hex b = true -> is_hex c = true -> is_hex d = true ->
  QString_toUInt16 [a; b; c; d]
  = 4096 * hex_digit_value a + 256 * hex_digit_value b
    + 16 * hex_digit_value c + hex_digit_value d.
Proof.
  intros Ha Hb Hc Hd. unfold QString_toUInt16. cbn [forallb fold_left].
  rewrite Ha, Hb, Hc, Hd. cbn [andb]. lia.
Qed.

Ltac hex_all H :=
  cbn [forallb] in H;
  repeat match type of H with
         | (_ && _) = true =>
             let H1 := fresh "Hx" in
             apply andb_true_iff in H; destruct H as [H1 H]
         end.

Ltac hex_ranges :=
  repeat match goal with
         | H : is_hex ?a = true |- _ =>
             lazymatch goal with
             | _ : 0 <= hex_digit_value a <= 15 |- _ => fail
             | _ => pose proof (hex_digit_value_range a H)
             end
         end.

(** The decoded value of a valid digit string. *)
Lemma hex6_value_bound s :
  IsValidHex6 s = true ->
  (QString_length s <> 6 -> 0 <= QString_toUInt16 s <= 65535)
  /\ (QString_length s = 6 ->
      0 <= QString_toUInt16 (QString_left 2 s) * 65536
           + QString_toUInt16 (QString_right 4 s) <= 1114111).
Proof.
  intros Hv. apply IsValidHex6_spec in Hv. destruct Hv as [Hs Hl].
  unfold QString_length in *.
  destruct s as [ | a [ | b [ | c [ | d [ | e [ | f [ | g s ] ] ] ] ] ] ];
    cbn [List.length] in *; try lia.
  - hex_all Hs. rewrite toUInt16_2 by assumption. hex_ranges. lia.
  - hex_all Hs. rewrite toUInt16_4 by assumption. hex_ranges. lia.
  - split; [ lia | intros _ ].
    hex_all Hs.
    change (QString_left 2 [a; b; c; d; e; f]) with [a; b].
    change (QString_right 4 [a; b; c; d; e; f]) with [c; d; e; f].
    rewrite toUInt16_2, toUInt16_4 by assumption. hex_ranges.
    destruct Hl as [ | [ | [_ [ HL1 | HL2 ] ] ] ]; try lia.
    + change (QString_left 1 [a; b; c; d; e; f]) with [a] in HL1.
      injection HL1 as ->. change (hex_digit_value (ch "0")) with 0. lia.
    + change (QString_left 2 [a; b; c; d; e; f]) with [a; b] in HL2.
      injection HL2 as -> ->. change (hex_digit_value (ch "1")) with 1.
      change (hex_digit_value (ch "0")) with 0. lia.
Qed.

(** C6: the pattern [\x{] followed by hexadecimal digits [s].  [s] is valid
    iff its length is 2, 4 or 6 and, for length 6, it starts with [0] or
    with [10].  At the closing brace a valid [s] of length 2 or 4
    accumulates the one code unit of that value, a valid [s] of length 6
    accumulates the code point [plane * 65536 + remainder], and the value
    never exceeds 0x10FFFF; an invalid [s], a character that is neither a
    hexadecimal digit nor the closing brace, and the end of the pattern all
    accumulate the raw sequence scanned so far. *)
Theorem braced_hex_escape this l s :
  isDigit_ascii Q ->
  in_control l = false ->
  forallb is_hex s = true ->
  let raw := qs "\x{" ++ s in
  let value :=
    if QString_length s =? 6
    then QString_toUInt16 (QString_left 2 s) * 65536
         + QString_toUInt16 (QString_right 4 s)
    else QString_toUInt16 s in
  let decoded :=
    if QString_length s =? 6 then QString_fromUcs4 value else [value] in
  (forall hv, IsValidHex6 hv = true
     <-> forallb is_hex hv = true
         /\ (QString_length hv = 2 \/ QString_length hv = 4
             \/ (QString_length hv = 6
                 /\ (QString_left 1 hv = qs "0"
                     \/ QString_left 2 hv = qs "10"))))
  /\ fst (run (this, l) (raw ++ [ch "}"]))
     = accumulateReplcementText this
         (if IsValidHex6 s then decoded else raw ++ [ch "}"])
  /\ in_control (snd (run (this, l) (raw ++ [ch "}"]))) = false
  /\ (IsValidHex6 s = true -> 0 <= value <= 1114111)
  /\ (forall c, is_hex c = false -> c <> ch "}" ->
        fst (run (this, l) (raw ++ [c]))
        = accumulateReplcementText this (raw ++ [c])
        /\ in_control (snd (run (this, l) (raw ++ [c]))) = false)
  /\ finish (run (this, l) raw) = accumulateReplcementText this raw.
Proof.
  intros HA Hl Hs raw value decoded.
  pose proof (scan_x6_opened this l s HA Hl Hs) as E. fold raw in E.
  split; [ exact IsValidHex6_spec | ].
  assert (B : IsValidHex6 s = true -> 0 <= value <= 1114111).
  { intros Hv. destruct (hex6_value_bound s Hv) as [B1 B2]. subst value.
    destruct (Z.eqb_spec (QString_length s) 6) as [E6 | E6].
    - now apply B2.
    - specialize (B1 E6). lia. }
  assert (C : run (this, l) (raw ++ [ch "}"])
              = step (this, mkLocals (backref_bracket_start_char l) (ch "x")
                              (backref_name l) raw [] s true true) (ch "}")).
  { now rewrite scan_snoc, E. }
  rewrite step_x6_close in C by reflexivity. norm_locals.
  cbn [control_x6_hex invalid_control] in C.
  split; [ | split; [ | split; [ exact B | split ] ] ].
  - rewrite C. destruct (IsValidHex6 s) eqn:Hv; cbn [fst]; [ | reflexivity ].
    f_equal. specialize (B eq_refl). destruct (hex6_value_bound s Hv) as [B1 B2].
    pose proof (proj1 (IsValidHex6_spec s) Hv) as [_ Hlen].
    unfold hex6_segment. subst decoded value.
    destruct (Z.eqb_spec (QString_length s) 6) as [E6 | E6].
    + rewrite E6. cbn [Z.eqb Pos.eqb orb]. f_equal.
      specialize (B2 E6). rewrite Z.mod_small by (change (2 ^ 32) with 4294967296; lia).
      lia.
    + assert (H24 : (QString_length s =? 2) || (QString_length s =? 4) = true).
      { apply orb_true_iff. destruct Hlen as [ H | [ H | [ H _ ] ] ];
          [ left | right | contradiction ]; now apply Z.eqb_eq. }
      rewrite H24. f_equal. apply QChar_of_uint_small. specialize (B1 E6). lia.
  - rewrite C. now destruct (IsValidHex6 s).
  - intros c Hc Hn. rewrite scan_snoc, E.
    rewrite step_x6_abort by (reflexivity || assumption). now split.
  - rewrite E. reflexivity.
Qed.

(** C7, at the pattern [\x4{41}]: after one collected digit the brace is
    still taken as the opening of the braced form, and the text is [A]. *)
Theorem hex_pair_brace_after_digit this out :
  isDigit_ascii Q ->
  isValid sre = true ->
  out_text (BuildReplacementText this sre text cgo (qs "\x4{41}") out) = qs "A".
Proof.
  intros HA Hv. rewrite Build_scan by (trivial; reflexivity).
  unfold out_text, scan. cbn [fst snd fold_left qs].
  rewrite step_backslash by reflexivity.
  rewrite (step_start_x _ _ HA) by reflexivity.
  reflexivity.
Qed.

(** *** Plain text *)

Lemma scan_literal_None p : forall t l,
  in_control l = false -> QString_contains p (ch "\") = false ->
  run (mkBuilder t CaseChange_None, l) p = (mkBuilder (t ++ p) CaseChange_None, l).
Proof.
  induction p as [ | c p IH ]; intros t l Hl Hp.
  - unfold scan. cbn [fold_left]. now rewrite app_nil_r.
  - unfold QString_contains in Hp. cbn [existsb] in Hp.
    apply orb_false_iff in Hp. destruct Hp as [Hc Hp].
    apply Z.eqb_neq in Hc.
    unfold scan in *. cbn [fold_left].
    rewrite step_literal by (trivial; congruence).
    rewrite accumulate_None, IH by assumption.
    now rewrite <- app_assoc.
Qed.

(** X1: The loop on a pattern without a backslash builds the pattern itself,
    which is what the fast path returns without running the loop. *)
Theorem scan_agrees_with_fast_path this pattern out :
  isValid sre = true ->
  QString_contains pattern (ch "\") = false ->
  m_finalText (finish (run (resetState this, locals_init) pattern))
  = out_text (BuildReplacementText this sre text cgo pattern out).
Proof.
  intros Hv Hp. unfold BuildReplacementText. rewrite Hv, Hp. cbn [negb out_text fst snd].
  unfold resetState. rewrite scan_literal_None by (trivial; reflexivity).
  reflexivity.
Qed.

(** X2: Under [\L] or [\U] plain text is converted one code unit at a time:
    each character is its own segment for [toLower] or [toUpper], and the
    mode is still in force afterwards. *)
Theorem scan_literal_case_mode p : forall t l,
  in_control l = false -> QString_contains p (ch "\") = false ->
  run (mkBuilder t CaseChange_Lower, l) p
  = (mkBuilder (t ++ flat_map (fun c => QString_toLower [c]) p) CaseChange_Lower, l)
  /\ run (mkBuilder t CaseChange_Upper, l) p
     = (mkBuilder (t ++ flat_map (fun c => QString_toUpper [c]) p) CaseChange_Upper, l).
Proof.
  induction p as [ | c p IH ]; intros t l Hl Hp.
  - unfold scan. cbn [fold_left flat_map]. now rewrite app_nil_r.
  - unfold QString_contains in Hp. cbn [existsb] in Hp.
    apply orb_false_iff in Hp. destruct Hp as [Hc Hp].
    apply Z.eqb_neq in Hc.
    unfold scan in *. cbn [fold_left flat_map].
    rewrite !step_literal by (trivial; congruence).
    unfold accumulateReplcementText. cbn [processTextSegement m_caseChangeState m_finalText].
    destruct (IH (t ++ QString_toLower [c]) l Hl Hp) as [IL _].
    destruct (IH (t ++ QString_toUpper [c]) l Hl Hp) as [_ IU].
    rewrite IL, IU. now rewrite <- !app_assoc.
Qed.

(** *** Invariants of the loop *)

Lemma accumulate_appends this seg :
  exists suffix,
    m_finalText (accumulateReplcementText this seg) = m_finalText this ++ suffix.
Proof.
  unfold accumulateReplcementText, processTextSegement.
  destruct seg as [ | c0 seg ]; [ exists []; reflexivity | ].
  destruct (m_caseChangeState this); eexists; reflexivity.
Qed.

Lemma trySetCaseChange_text this state :
  exists suffix,
    m_finalText (trySetCaseChange this state) = m_finalText this ++ suffix.
Proof.
  exists []. unfold trySetCaseChange.
  destruct (CaseChange_eqb _ _); cbn [m_finalText]; now rewrite app_nil_r.
Qed.

Lemma step_appends this l c :
  exists suffix,
    m_finalText (fst (step (this, l) c)) = m_finalText this ++ suffix.
Proof.
  unfold loop_body. split_ifs; cbn [fst];
    first [ apply accumulate_appends
          | apply trySetCaseChange_text
          | exists []; cbn [m_finalText]; now rewrite app_nil_r ].
Qed.

(** X3: The text built so far is never shortened or rewritten: whatever the
    pattern and the state the loop starts in, the text after the loop and
    after the final flush extends the text before. *)
Theorem scan_appends pattern : forall this l,
  exists suffix,
    m_finalText (finish (run (this, l) pattern)) = m_finalText this ++ suffix.
Proof.
  assert (R : forall p this l, exists suffix,
             m_finalText (fst (run (this, l) p)) = m_finalText this ++ suffix).
  { induction p as [ | c p IH ] using rev_ind; intros this l.
    - exists []. unfold scan. cbn. now rewrite app_nil_r.
    - rewrite scan_snoc. destruct (IH this l) as [s1 H1].
      destruct (run (this, l) p) as [b1 l1]. cbn [fst] in H1.
      destruct (step_appends b1 l1 c) as [s2 H2].
      exists (s1 ++ s2). now rewrite H2, H1, app_assoc. }
  intros this l. destruct (R pattern this l) as [s1 H1].
  destruct (run (this, l) pattern) as [b1 l1]. cbn [fst] in H1.
  unfold finish. destruct (in_control l1).
  - destruct (accumulate_appends b1 (invalid_control l1)) as [s2 H2].
    exists (s1 ++ s2). now rewrite H2, H1, app_assoc.
  - now exists s1.
Qed.

Lemma accumulate_persistent this seg :
  persistent (m_caseChangeState this) ->
  m_caseChangeState (accumulateReplcementText this seg) = m_caseChangeState this.
Proof.
  unfold accumulateReplcementText, processTextSegement.
  destruct seg as [ | c0 seg ]; [ reflexivity | ].
  intros [H | H]; now rewrite H.
Qed.

Lemma trySetCaseChange_persistent this state :
  persistent (m_caseChangeState this) ->
  m_caseChangeState (trySetCaseChange this state) = m_caseChangeState this.
Proof. unfold trySetCaseChange. intros [H | H]; now rewrite H. Qed.

Lemma step_persistent this l c :
  persistent (m_caseChangeState this) -> c <> ch "E" ->
  m_caseChangeState (fst (step (this, l) c)) = m_caseChangeState this.
Proof.
  intros Hm Hc. apply Z.eqb_neq in Hc. unfold loop_body. rewrite Hc.
  split_ifs; cbn [fst];
    first [ reflexivity
          | now apply accumulate_persistent
          | now apply trySetCaseChange_persistent ].
Qed.

(** X4: A [\L] or [\U] mode is sticky: over a pattern that has no letter [E]
    anywhere the mode at the end of the call is the mode at the start,
    whatever controls and text the pattern holds. *)
Theorem case_mode_sticky pattern : forall this l,
  persistent (m_caseChangeState this) ->
  ~ In (ch "E") pattern ->
  m_caseChangeState (finish (run (this, l) pattern)) = m_caseChangeState this.
Proof.
  assert (R : forall p this l, persistent (m_caseChangeState this) ->
             ~ In (ch "E") p ->
             m_caseChangeState (fst (run (this, l) p)) = m_caseChangeState this).
  { induction p as [ | c p IH ] using rev_ind; intros this l Hm Hn.
    - reflexivity.
    - rewrite scan_snoc.
      assert (Hp : ~ In (ch "E") p) by (intros H; apply Hn, in_or_app; now left).
      assert (Hc : c <> ch "E").
      { intros ->. apply Hn, in_or_app. right. now left. }
      specialize (IH this l Hm Hp).
      destruct (run (this, l) p) as [b1 l1]. cbn [fst] in IH.
      rewrite step_persistent; trivial. now rewrite IH. }
  intros this l Hm Hn. specialize (R pattern this l Hm Hn).
  destruct (run (this, l) pattern) as [b1 l1]. cbn [fst] in R.
  unfold finish. destruct (in_control l1); trivial.
  rewrite accumulate_persistent; trivial. now rewrite R.
Qed.

(** *** Locals left over from an earlier control *)

Ltac split_ifs_eqn :=
  repeat match goal with
         | |- context [if ?b then _ else _] => destruct b eqn:?
         end.

Lemma same_scan_state_refl l : same_scan_state l l.
Proof. unfold same_scan_state. intuition. Qed.

Lemma same_scan_state_outside l1 l2 :
  in_control l1 = false -> in_control l2 = false -> same_scan_state l1 l2.
Proof. unfold same_scan_state. intros H1 H2. rewrite H1, H2. intuition discriminate. Qed.

Lemma step_same_scan_state this l1 l2 c :
  same_scan_state l1 l2 ->
  fst (step (this, l1) c) = fst (step (this, l2) c)
  /\ same_scan_state (snd (step (this, l1) c)) (snd (step (this, l2) c)).
Proof.
  destruct l1 as [br1 cc1 bn1 inv1 xh1 x61 h61 ic1].
  destruct l2 as [br2 cc2 bn2 inv2 xh2 x62 h62 ic2].
  unfold same_scan_state at 1. norm_locals. intros [Hic H]. subst ic2.
  destruct ic1.
  - destruct (H eq_refl) as (Hcc & Hinv & Hxh & Hx6 & Hh6 & Hg). subst.
    destruct (Z.eq_dec cc2 (ch "g")) as [Eg | Ng].
    + destruct (Hg Eg) as [Hbr Hbn]. subst br2 cc2.
      destruct (Z.eq_dec br1 QChar_null) as [En | Nn].
      * subst br1. unfold loop_body. norm_locals.
        change (isNull (ch "g")) with false. change (ch "g" =? ch "g") with true.
        change (isNull QChar_null) with true. cbv iota.
        destruct ((c =? ch "{") || (c =? ch "<")); norm_locals;
          (split; [ reflexivity | ]).
        -- apply same_scan_state_refl.
        -- now apply same_scan_state_outside.
      * rewrite (Hbn Nn). split; [ reflexivity | apply same_scan_state_refl ].
    + assert (Ng' : (cc2 =? ch "g") = false) by now apply Z.eqb_neq.
      unfold loop_body. norm_locals. rewrite Ng'.
      split_ifs_eqn; norm_locals; (split; [ reflexivity | ]);
        try (now apply same_scan_state_outside);
        unfold same_scan_state; norm_locals;
        (split; [ reflexivity | ]); intros _; repeat (split; trivial);
        try (exfalso; first
               [ contradiction
               | match goal with
                 | Hc : ?x = ch "g", E : (?x =? ch "g") = false |- _ =>
                     rewrite Hc in E; discriminate E
                 end ]);
        try (intros Hnn; now elim Hnn).
  - unfold loop_body. norm_locals.
    destruct (c =? ch "\"); norm_locals; (split; [ reflexivity | ]).
    + unfold same_scan_state. norm_locals. split; [ reflexivity | ].
      intros _. repeat (split; trivial);
        exfalso; match goal with
                 | Hc : QChar_null = ch "g" |- _ => discriminate Hc
                 end.
    + now apply same_scan_state_outside.
Qed.

Lemma scan_same_scan_state p : forall this l1 l2,
  same_scan_state l1 l2 ->
  fst (run (this, l1) p) = fst (run (this, l2) p)
  /\ same_scan_state (snd (run (this, l1) p)) (snd (run (this, l2) p)).
Proof.
  induction p as [ | c p IH ]; intros this l1 l2 H.
  - now split.
  - unfold scan in *. cbn [fold_left].
    destruct (step_same_scan_state this l1 l2 c H) as [Hb Hl].
    destruct (step (this, l1) c) as [b1 m1], (step (this, l2) c) as [b2 m2].
    cbn [fst snd] in Hb, Hl. subst b2. now apply IH.
Qed.

(** X5: The loop is compositional at every position outside a control: when
    the scanner is outside a control after [p], the rest [q] of the pattern
    is handled as a pattern of its own, with freshly declared locals,
    started on the builder as [p] left it.  The name and bracket that an
    earlier [\g] left in the locals, which the backslash does not reset,
    have no effect on what follows. *)
Theorem scan_splits_outside_control this l p q :
  in_control (snd (run (this, l) p)) = false ->
  finish (run (this, l) (p ++ q))
  = finish (run (fst (run (this, l) p), locals_init) q).
Proof.
  intros Hp. unfold scan at 1. rewrite fold_left_app.
  fold (run (this, l) p). destruct (run (this, l) p) as [b1 l1].
  cbn [fst snd] in *. fold (run (b1, l1) q).
  destruct (scan_same_scan_state q b1 l1 locals_init
              (same_scan_state_outside l1 locals_init Hp eq_refl)) as [Hb Hl].
  destruct (run (b1, l1) q) as [b2 l2], (run (b1, locals_init) q) as [b3 l3].
  cbn [fst snd] in Hb, Hl. subst b3. unfold finish.
  destruct Hl as [Hic Hl]. rewrite <- Hic.
  destruct (in_control l2); trivial.
  destruct (Hl eq_refl) as (_ & Hinv & _). now rewrite Hinv.
Qed.

(** *** The fixed form [\xHH] *)

Lemma is_hex_not_brace c : is_hex c = true -> (c =? ch "{") = false.
Proof.
  intros H. apply is_hex_range in H.
  change (ch "0") with 48 in H. change (ch "f") with 102 in H.
  apply Z.eqb_neq. change (ch "{") with 123. lia.
Qed.

Lemma step_x_digit this l c :
  in_control l = true -> control_char l = ch "x" -> in_hex6 l = false ->
  is_hex c = true ->
  step (this, l) c
  = if QString_length (control_x_hex l ++ [c]) =? 2
    then (accumulateReplcementText this
            [QChar_of_uint (QString_toUInt16 (control_x_hex l ++ [c]))],
          set_in_control
            (set_control_x_hex (noted l c) (control_x_hex l ++ [c])) false)
    else (this, set_control_x_hex (noted l c) (control_x_hex l ++ [c])).
Proof.
  intros Hl Hc Hh Hx. destruct l as [br cc bn inv xh x6 h6 ic].
  cbn [in_control control_char in_hex6] in Hl, Hc, Hh. subst ic cc h6.
  unfold loop_body. norm_locals.
  change (isNull (ch "x")) with false. change (ch "x" =? ch "g") with false.
  change (ch "x" =? ch "x") with true. cbv iota.
  rewrite Hx, (is_hex_not_brace c Hx), andb_false_r. cbn [andb]. reflexivity.
Qed.

Lemma step_x_abort this l c :
  in_control l = true -> control_char l = ch "x" -> in_hex6 l = false ->
  is_hex c = false -> c <> ch "{" ->
  step (this, l) c
  = (accumulateReplcementText this (invalid_control l ++ [c]),
     set_in_control (noted l c) false).
Proof.
  intros Hl Hc Hh Hx Hn. destruct l as [br cc bn inv xh x6 h6 ic].
  cbn [in_control control_char in_hex6] in Hl, Hc, Hh. subst ic cc h6.
  unfold loop_body. norm_locals.
  change (isNull (ch "x")) with false. change (ch "x" =? ch "g") with false.
  change (ch "x" =? ch "x") with true. cbv iota.
  apply Z.eqb_neq in Hn. rewrite Hx, Hn, andb_false_r. cbn [andb]. reflexivity.
Qed.

(** X6: [\x] followed by two hexadecimal digits accumulates one character, the
    code unit whose value the two digits spell (at most 255), and the
    scanner is out of the control. *)
Theorem hex_pair_decodes this l a b :
  isDigit_ascii Q ->
  in_control l = false ->
  is_hex a = true -> is_hex b = true ->
  fst (run (this, l) [ch "\"; ch "x"; a; b])
  = accumulateReplcementText this [16 * hex_digit_value a + hex_digit_value b]
  /\ 0 <= 16 * hex_digit_value a + hex_digit_value b <= 255
  /\ in_control (snd (run (this, l) [ch "\"; ch "x"; a; b])) = false.
Proof.
  intros HA Hl Ha Hb.
  pose proof (hex_digit_value_range a Ha). pose proof (hex_digit_value_range b Hb).
  assert (E : run (this, l) [ch "\"; ch "x"; a; b]
              = (accumulateReplcementText this
                   [16 * hex_digit_value a + hex_digit_value b],
                 set_in_control
                   (mkLocals (backref_bracket_start_char l) (ch "x")
                      (backref_name l) [ch "\"; ch "x"; a; b] [a; b] [] false true)
                   false)).
  { unfold scan. cbn [fold_left].
    rewrite step_backslash by exact Hl.
    rewrite (step_start_x _ _ HA) by reflexivity.
    rewrite step_x_digit by (reflexivity || assumption). norm_locals.
    change (QString_length [a] =? 2) with false. cbv iota.
    rewrite step_x_digit by (reflexivity || assumption). norm_locals.
    change (QString_length [a; b] =? 2) with true. cbv iota.
    rewrite toUInt16_2 by assumption.
    rewrite QChar_of_uint_small by lia. reflexivity. }
  rewrite E. repeat split; lia.
Qed.

(** X7: In the fixed form any character that is neither a hexadecimal digit
    nor an opening brace, met right after the [x] or after one digit, ends
    the control: the raw characters up to and including it are accumulated
    as one segment. *)
Theorem hex_pair_aborts this l c :
  isDigit_ascii Q ->
  in_control l = false ->
  is_hex c = false -> c <> ch "{" ->
  (fst (run (this, l) [ch "\"; ch "x"; c])
   = accumulateReplcementText this [ch "\"; ch "x"; c]
   /\ in_control (snd (run (this, l) [ch "\"; ch "x"; c])) = false)
  /\ forall a, is_hex a = true ->
       fst (run (this, l) [ch "\"; ch "x"; a; c])
       = accumulateReplcementText this [ch "\"; ch "x"; a; c]
       /\ in_control (snd (run (this, l) [ch "\"; ch "x"; a; c])) = false.
Proof.
  intros HA Hl Hc Hn. split.
  - unfold scan. cbn [fold_left].
    rewrite step_backslash by exact Hl.
    rewrite (step_start_x _ _ HA) by reflexivity.
    rewrite step_x_abort by (reflexivity || assumption). now split.
  - intros a Ha. unfold scan. cbn [fold_left].
    rewrite step_backslash by exact Hl.
    rewrite (step_start_x _ _ HA) by reflexivity.
    rewrite step_x_digit by (reflexivity || assumption). norm_locals.
    change (QString_length [a] =? 2) with false. cbv iota.
    rewrite step_x_abort by (reflexivity || assumption). now split.
Qed.

(** *** Controls of one character *)

Lemma step_start_meta this l c v :
  isDigit_ascii Q -> in_control l = true -> control_char l = QChar_null ->
  In (c, v) metacharacters ->
  step (this, l) c
  = (accumulateReplcementText this [v], set_in_control (classified l c) false).
Proof.
  intros HA Hl Hc Hin. unfold metacharacters in Hin. cbn [In] in Hin.
  repeat destruct Hin as [Hin | Hin]; try contradiction;
    injection Hin as <- <-; start_step HA Hl Hc.
Qed.

(** X8: Each of the metacharacter controls [\a \b \f \n \r \t \v] and the
    doubled backslash accumulates exactly its one control character (or
    one backslash) and ends the control. *)
Theorem metacharacter_control this l c v :
  isDigit_ascii Q ->
  in_control l = false ->
  In (c, v) metacharacters ->
  fst (run (this, l) [ch "\"; c]) = accumulateReplcementText this [v]
  /\ in_control (snd (run (this, l) [ch "\"; c])) = false.
Proof.
  intros HA Hl Hin. unfold scan. cbn [fold_left].
  rewrite step_backslash by exact Hl.
  rewrite (step_start_meta _ _ c v HA) by (reflexivity || exact Hin).
  now split.
Qed.

(** X9: [\g] followed by a character that is neither [{] nor [<] is not a
    back reference: the three raw characters are accumulated as one segment
    and the control ends. *)
Theorem backreference_without_bracket this l c :
  isDigit_ascii Q ->
  in_control l = false ->
  c <> ch "{" -> c <> ch "<" ->
  fst (run (this, l) [ch "\"; ch "g"; c])
  = accumulateReplcementText this [ch "\"; ch "g"; c]
  /\ in_control (snd (run (this, l) [ch "\"; ch "g"; c])) = false.
Proof.
  intros HA Hl H1 H2. unfold scan. cbn [fold_left].
  rewrite step_backslash by exact Hl.
  rewrite (step_start_g _ _ HA) by reflexivity.
  rewrite step_g_no_bracket by (reflexivity || assumption). now split.
Qed.

(** *** Characters without a branch *)

Lemma step_start_unrecognized this l c :
  in_control l = true -> control_char l = QChar_null ->
  QChar_isDigit c = false ->
  ~ In c control_letters ->
  step (this, l) c = (this, classified l c).
Proof.
  intros Hl Hc Hd Hn. unfold loop_body. rewrite Hl.
  cbn [invalid_control set_invalid_control control_char set_control_char].
  rewrite Hc. cbn [isNull QChar_null Z.eqb]. rewrite Hd.
  split_ifs_eqn; try reflexivity; exfalso; apply Hn;
    match goal with
    | E : (c =? _) = true |- _ => apply Z.eqb_eq in E; rewrite E
    end; unfold control_letters; cbn [qs In];
    repeat first [ left; reflexivity | right ].
Qed.

(** X10: A character after the backslash that is not a digit, not the null
    character and not one of the control letters produces nothing by
    itself and leaves the scanner inside the control.  Whatever character
    comes next, a backslash included, is taken into the invalid sequence
    and the three characters are accumulated as one segment. *)
Theorem unrecognized_control_three_characters this l c :
  in_control l = false ->
  QChar_isDigit c = false ->
  c <> QChar_null ->
  ~ In c control_letters ->
  fst (run (this, l) [ch "\"; c]) = this
  /\ in_control (snd (run (this, l) [ch "\"; c])) = true
  /\ forall c2,
       fst (run (this, l) [ch "\"; c; c2])
       = accumulateReplcementText this [ch "\"; c; c2]
       /\ in_control (snd (run (this, l) [ch "\"; c; c2])) = false.
Proof.
  intros Hl Hd H0 Hn.
  assert (E : run (this, l) [ch "\"; c]
              = (this, classified
                   (mkLocals (backref_bracket_start_char l) QChar_null
                             (backref_name l) [ch "\"] [] [] false true) c)).
  { unfold scan. cbn [fold_left].
    rewrite step_backslash by exact Hl.
    now rewrite step_start_unrecognized. }
  split; [ now rewrite E | ]. split; [ now rewrite E | ].
  intros c2. change [ch "\"; c; c2] with ([ch "\"; c] ++ [c2]).
  rewrite scan_snoc, E.
  rewrite step_unsupported.
  - now split.
  - reflexivity.
  - exact H0.
  - norm_locals. intros ->. apply Hn. unfold control_letters. cbn [qs In].
    repeat first [ left; reflexivity | right ].
  - norm_locals. intros ->. apply Hn. unfold control_letters. cbn [qs In].
    repeat first [ left; reflexivity | right ].
Qed.

(** *** Case directives in sequence *)

(** X11: [\l] or [\u] before a numbered back reference changes the first
    character of the substituted text only, and the mode is None again
    afterwards. *)
Theorem case_next_on_backreference t l d c rest :
  isDigit_ascii Q ->
  in_control l = false ->
  QChar_isDigit d = true ->
  0 <= QChar_digitValue d < capture_count cgo ->
  capture_text text cgo (QChar_digitValue d) = c :: rest ->
  fst (run (mkBuilder t CaseChange_None, l) [ch "\"; ch "l"; ch "\"; d])
  = mkBuilder (t ++ QChar_toLower c :: rest) CaseChange_None
  /\ fst (run (mkBuilder t CaseChange_None, l) [ch "\"; ch "u"; ch "\"; d])
     = mkBuilder (t ++ QChar_toUpper c :: rest) CaseChange_None.
Proof.
  intros HA Hl Hd [Hd0 Hd1] Hc.
  apply Z.leb_le in Hd0. apply Z.ltb_lt in Hd1.
  split; unfold scan; cbn [fold_left];
    rewrite step_backslash by exact Hl;
    [ rewrite (step_start_l _ _ HA) by reflexivity
    | rewrite (step_start_u _ _ HA) by reflexivity ];
    rewrite step_backslash by reflexivity;
    rewrite step_start_digit by (reflexivity || exact Hd);
    rewrite Hd0, Hd1, Hc; reflexivity.
Qed.

(** X12: After [\E] a case directive always takes effect, whatever mode was in
    force before; the text is not touched. *)
Theorem directive_after_E this l :
  isDigit_ascii Q ->
  in_control l = false ->
  fst (run (this, l) (qs "\E\l"))
  = mkBuilder (m_finalText this) CaseChange_LowerNext
  /\ fst (run (this, l) (qs "\E\L"))
     = mkBuilder (m_finalText this) CaseChange_Lower
  /\ fst (run (this, l) (qs "\E\u"))
     = mkBuilder (m_finalText this) CaseChange_UpperNext
  /\ fst (run (this, l) (qs "\E\U"))
     = mkBuilder (m_finalText this) CaseChange_Upper.
Proof.
  intros HA Hl.
  repeat split; unfold scan; cbn [fold_left qs];
    rewrite step_backslash by exact Hl;
    rewrite (step_start_E _ _ HA) by reflexivity;
    rewrite step_backslash by reflexivity;
    first [ rewrite (step_start_l _ _ HA) by reflexivity
          | rewrite (step_start_L _ _ HA) by reflexivity
          | rewrite (step_start_u _ _ HA) by reflexivity
          | rewrite (step_start_U _ _ HA) by reflexivity ];
    reflexivity.
Qed.

(** *** Two corners of the control state *)

(** X13: The null character after a backslash is stored as the control
    character, which leaves the control character looking unset: the
    scanner is where it was right after the backslash, except that the null
    character is now part of the invalid sequence.  So the character after
    it is the one classified; a metacharacter letter there gives its
    control character. *)
Theorem null_after_backslash this l :
  isDigit_ascii Q ->
  in_control l = false ->
  run (this, l) [ch "\"; QChar_null]
  = (this, mkLocals (backref_bracket_start_char l) QChar_null (backref_name l)
                    [ch "\"; QChar_null] [] [] false true)
  /\ forall c v, In (c, v) metacharacters ->
       fst (run (this, l) [ch "\"; QChar_null; c])
       = accumulateReplcementText this [v].
Proof.
  intros HA Hl.
  assert (E : run (this, l) [ch "\"; QChar_null]
              = (this, mkLocals (backref_bracket_start_char l) QChar_null
                         (backref_name l) [ch "\"; QChar_null] [] [] false true)).
  { unfold scan. cbn [fold_left].
    rewrite step_backslash by exact Hl.
    rewrite step_start_unrecognized; trivial.
    - apply (isDigit_ascii_false _ HA); cbv; intuition congruence.
    - unfold control_letters. cbv. intuition discriminate. }
  split; [ exact E | ].
  intros c v Hin.
  change [ch "\"; QChar_null; c] with ([ch "\"; QChar_null] ++ [c]).
  rewrite scan_snoc, E.
  now rewrite (step_start_meta _ _ c v HA) by (reflexivity || exact Hin).
Qed.

(** X14: An opening brace met after one digit of the fixed form still starts
    the braced form: the digit already collected is ignored, and the
    digits between the braces decide the result exactly as in [\x{...}],
    the raw sequence put out for an invalid digit string being the whole
    of what was scanned. *)
Theorem brace_after_hex_digit this l a s :
  isDigit_ascii Q ->
  in_control l = false ->
  is_hex a = true ->
  forallb is_hex s = true ->
  let raw := [ch "\"; ch "x"; a; ch "{"] ++ s ++ [ch "}"] in
  fst (run (this, l) raw)
  = accumulateReplcementText this
      (if IsValidHex6 s then hex6_segment s else raw)
  /\ in_control (snd (run (this, l) raw)) = false.
Proof.
  intros HA Hl Ha Hs raw.
  assert (E : run (this, l) ([ch "\"; ch "x"; a; ch "{"] ++ s)
              = (this, mkLocals (backref_bracket_start_char l) (ch "x")
                         (backref_name l) ([ch "\"; ch "x"; a; ch "{"] ++ s)
                         [a] s true true)).
  { unfold scan. rewrite fold_left_app. cbn [fold_left].
    rewrite step_backslash by exact Hl.
    rewrite (step_start_x _ _ HA) by reflexivity.
    rewrite step_x_digit by (reflexivity || assumption). norm_locals.
    change (QString_length [a] =? 2) with false. cbv iota.
    rewrite step_x_brace by reflexivity. norm_locals.
    exact (scan_x6_digits this s _ _ [ch "\"; ch "x"; a; ch "{"] [a] [] Hs). }
  subst raw. rewrite app_assoc, scan_snoc, E.
  rewrite step_x6_close by reflexivity. norm_locals.
  destruct (IsValidHex6 s); now split.
Qed.

End Properties.

(** ** The properties on concrete patterns

    The theorems above, applied to the ASCII instance, the source text
    [Hello World 2024] and the two spans [Hello] and [2024]. *)

Lemma Ascii_isDigit_ascii : isDigit_ascii Ascii.qt.
Proof. intros c _. reflexivity. Qed.

Lemma BuildReplacementText_no_backslash_witness :
  isValid Ascii.sre = true
  /\ QString_contains (qs "a-b") (ch "\") = false
  /\ success (@BuildReplacementText Ascii.qt fresh_builder Ascii.sre
                Ascii.text Ascii.spans (qs "a-b") []) = true
  /\ out_text (@BuildReplacementText Ascii.qt fresh_builder Ascii.sre
                 Ascii.text Ascii.spans (qs "a-b") []) = qs "a-b".
Proof.
  split; [ reflexivity | ]. split; [ reflexivity | ].
  apply (@BuildReplacementText_no_backslash Ascii.qt Ascii.sre Ascii.text
           Ascii.spans fresh_builder (qs "a-b") []); reflexivity.
Defined.

Lemma case_change_first_wins_witness :
  isDigit_ascii Ascii.qt
  /\ isValid Ascii.sre = true
  /\ @QChar_toLower Ascii.qt (ch "W") = ch "w"
  /\ out_text (@BuildReplacementText Ascii.qt fresh_builder Ascii.sre
                 Ascii.text Ascii.spans (qs "\l\uWORD") []) = qs "wORD".
Proof.
  split; [ exact Ascii_isDigit_ascii | ].
  split; [ reflexivity | ]. split; [ reflexivity | ].
  pose proof (@case_change_first_wins Ascii.qt Ascii.sre Ascii.text
                Ascii.spans fresh_builder [] Ascii_isDigit_ascii
                eq_refl eq_refl) as H.
  destruct H as (_ & _ & _ & H). exact H.
Defined.

Lemma unrecognized_control_takes_next_character_witness :
  isDigit_ascii Ascii.qt
  /\ isValid Ascii.sre = true
  /\ out_text (@BuildReplacementText Ascii.qt fresh_builder Ascii.sre
                 Ascii.text Ascii.spans (qs "\q\n") [])
     = [ch "\"; ch "q"; ch "\"; ch "n"].
Proof.
  split; [ exact Ascii_isDigit_ascii | ]. split; [ reflexivity | ].
  pose proof (@unrecognized_control_takes_next_character Ascii.qt Ascii.sre
                Ascii.text Ascii.spans fresh_builder [] Ascii_isDigit_ascii
                eq_refl) as H.
  destruct H as (_ & H). exact H.
Defined.

Lemma numbered_backreference_witness :
  in_control locals_init = false
  /\ @QChar_isDigit Ascii.qt (ch "1") = true
  /\ 0 <= @QChar_digitValue Ascii.qt (ch "1")
  /\ fst (@scan Ascii.qt Ascii.sre Ascii.text Ascii.spans
            (fresh_builder, locals_init) (qs "\12"))
     = mkBuilder (qs "20242") CaseChange_None.
Proof.
  split; [ reflexivity | ]. split; [ reflexivity | ].
  split; [ discriminate | ].
  pose proof (@numbered_backreference Ascii.qt Ascii.sre Ascii.text
                Ascii.spans fresh_builder locals_init (ch "1") eq_refl eq_refl
                ltac:(discriminate)) as H.
  cbv zeta in H. destruct H as (_ & _ & H).
  destruct (H (ch "2") ltac:(discriminate)) as (H2 & _). exact H2.
Defined.

Lemma named_backreference_witness :
  isDigit_ascii Ascii.qt
  /\ in_control locals_init = false
  /\ ~ In (closer (ch "{")) (qs "year")
  /\ fst (@scan Ascii.qt Ascii.sre Ascii.text Ascii.spans
            (fresh_builder, locals_init) (qs "\g{year}"))
     = mkBuilder (qs "2024") CaseChange_None.
Proof.
  assert (N : ~ In (closer (ch "{")) (qs "year")) by (cbv; intuition discriminate).
  split; [ exact Ascii_isDigit_ascii | ]. split; [ reflexivity | ].
  split; [ exact N | ].
  pose proof (@named_backreference Ascii.qt Ascii.sre Ascii.text Ascii.spans
                fresh_builder locals_init (ch "{") (qs "year")
                Ascii_isDigit_ascii eq_refl (or_introl eq_refl) N) as H.
  cbv zeta in H. destruct H as (_ & _ & H & _). exact H.
Defined.

Lemma unterminated_control_witness :
  isDigit_ascii Ascii.qt
  /\ isValid Ascii.sre = true
  /\ out_text (@BuildReplacementText Ascii.qt fresh_builder Ascii.sre
                 Ascii.text Ascii.spans (qs "\g{year") []) = qs "\g{year".
Proof.
  split; [ exact Ascii_isDigit_ascii | ]. split; [ reflexivity | ].
  pose proof (@unterminated_control Ascii.qt Ascii.sre Ascii.text Ascii.spans
                fresh_builder [] Ascii_isDigit_ascii eq_refl) as H.
  destruct H as (_ & H). exact H.
Defined.

Lemma braced_hex_escape_witness :
  isDigit_ascii Ascii.qt
  /\ in_control locals_init = false
  /\ forallb is_hex (qs "10FFFD") = true
  /\ fst (@scan Ascii.qt Ascii.sre Ascii.text Ascii.spans
            (fresh_builder, locals_init) (qs "\x{10FFFD}"))
     = mkBuilder (@QString_fromUcs4 Ascii.qt 1114109) CaseChange_None.
Proof.
  split; [ exact Ascii_isDigit_ascii | ]. split; [ reflexivity | ].
  split; [ reflexivity | ].
  pose proof (@braced_hex_escape Ascii.qt Ascii.sre Ascii.text Ascii.spans
                fresh_builder locals_init (qs "10FFFD")
                Ascii_isDigit_ascii eq_refl eq_refl) as H.
  cbv zeta in H. destruct H as (_ & H & _). exact H.
Defined.

Lemma hex_pair_brace_after_digit_witness :
  isDigit_ascii Ascii.qt
  /\ isValid Ascii.sre = true
  /\ out_text (@BuildReplacementText Ascii.qt fresh_builder Ascii.sre
                 Ascii.text Ascii.spans (qs "\x4{41}") []) = qs "A".
Proof.
  split; [ exact Ascii_isDigit_ascii | ]. split; [ reflexivity | ].
  exact (@hex_pair_brace_after_digit Ascii.qt Ascii.sre Ascii.text Ascii.spans
           fresh_builder [] Ascii_isDigit_ascii eq_refl).
Defined.

(** ** Further properties on concrete patterns *)

Lemma scan_agrees_with_fast_path_witness :
  isValid Ascii.sre = true
  /\ QString_contains (qs "a-b") (ch "\") = false
  /\ m_finalText (@finish Ascii.qt (@scan Ascii.qt Ascii.sre Ascii.text Ascii.spans
                            (resetState fresh_builder, locals_init) (qs "a-b")))
     = out_text (@BuildReplacementText Ascii.qt fresh_builder Ascii.sre
                   Ascii.text Ascii.spans (qs "a-b") []).
Proof.
  split; [ reflexivity | ]. split; [ reflexivity | ].
  exact (scan_agrees_with_fast_path (Q := Ascii.qt) Ascii.sre Ascii.text
           Ascii.spans fresh_builder (qs "a-b") [] eq_refl eq_refl).
Defined.

Lemma scan_literal_case_mode_witness :
  in_control locals_init = false
  /\ QString_contains (qs "aBc") (ch "\") = false
  /\ @scan Ascii.qt Ascii.sre Ascii.text Ascii.spans
       (mkBuilder [] CaseChange_Upper, locals_init) (qs "aBc")
     = (mkBuilder (qs "ABC") CaseChange_Upper, locals_init).
Proof.
  split; [ reflexivity | ]. split; [ reflexivity | ].
  exact (proj2 (scan_literal_case_mode (Q := Ascii.qt) Ascii.sre Ascii.text
                  Ascii.spans (qs "aBc") [] locals_init eq_refl eq_refl)).
Defined.

Lemma case_mode_sticky_witness :
  persistent CaseChange_Upper
  /\ ~ In (ch "E") (qs "\la\x41\g{year")
  /\ m_caseChangeState
       (@finish Ascii.qt (@scan Ascii.qt Ascii.sre Ascii.text Ascii.spans
                  (mkBuilder [] CaseChange_Upper, locals_init)
                  (qs "\la\x41\g{year")))
     = CaseChange_Upper.
Proof.
  assert (N : ~ In (ch "E") (qs "\la\x41\g{year")) by (cbv; intuition discriminate).
  split; [ now right | ]. split; [ exact N | ].
  exact (case_mode_sticky (Q := Ascii.qt) Ascii.sre Ascii.text Ascii.spans
           (qs "\la\x41\g{year") (mkBuilder [] CaseChange_Upper) locals_init
           (or_intror eq_refl) N).
Defined.

Lemma scan_splits_outside_control_witness :
  in_control (snd (@scan Ascii.qt Ascii.sre Ascii.text Ascii.spans
                     (fresh_builder, locals_init) (qs "\g{year}"))) = false
  /\ @finish Ascii.qt (@scan Ascii.qt Ascii.sre Ascii.text Ascii.spans
               (fresh_builder, locals_init) (qs "\g{year}" ++ qs "\g<0"))
     = @finish Ascii.qt (@scan Ascii.qt Ascii.sre Ascii.text Ascii.spans
                 (mkBuilder (qs "2024") CaseChange_None, locals_init)
                 (qs "\g<0")).
Proof.
  split; [ reflexivity | ].
  exact (scan_splits_outside_control (Q := Ascii.qt) Ascii.sre Ascii.text
           Ascii.spans fresh_builder locals_init (qs "\g{year}") (qs "\g<0")
           eq_refl).
Defined.

Lemma hex_pair_decodes_witness :
  isDigit_ascii Ascii.qt
  /\ in_control locals_init = false
  /\ is_hex (ch "4") = true /\ is_hex (ch "1") = true
  /\ fst (@scan Ascii.qt Ascii.sre Ascii.text Ascii.spans
            (fresh_builder, locals_init) (qs "\x41"))
     = mkBuilder (qs "A") CaseChange_None.
Proof.
  split; [ exact Ascii_isDigit_ascii | ].
  split; [ reflexivity | ]. split; [ reflexivity | ]. split; [ reflexivity | ].
  exact (proj1 (hex_pair_decodes (Q := Ascii.qt) Ascii.sre Ascii.text
                  Ascii.spans fresh_builder locals_init (ch "4") (ch "1")
                  Ascii_isDigit_ascii eq_refl eq_refl eq_refl)).
Defined.

Lemma hex_pair_aborts_witness :
  isDigit_ascii Ascii.qt
  /\ in_control locals_init = false
  /\ is_hex (ch "Z") = false /\ ch "Z" <> ch "{"
  /\ fst (@scan Ascii.qt Ascii.sre Ascii.text Ascii.spans
            (fresh_builder, locals_init) (qs "\x4Z"))
     = mkBuilder (qs "\x4Z") CaseChange_None.
Proof.
  split; [ exact Ascii_isDigit_ascii | ].
  split; [ reflexivity | ]. split; [ reflexivity | ].
  split; [ discriminate | ].
  exact (proj1 (proj2 (hex_pair_aborts (Q := Ascii.qt) Ascii.sre Ascii.text
                         Ascii.spans fresh_builder locals_init (ch "Z")
                         Ascii_isDigit_ascii eq_refl eq_refl
                         ltac:(discriminate))
                  (ch "4") eq_refl)).
Defined.

Lemma metacharacter_control_witness :
  isDigit_ascii Ascii.qt
  /\ in_control locals_init = false
  /\ In (ch "n", 10) metacharacters
  /\ fst (@scan Ascii.qt Ascii.sre Ascii.text Ascii.spans
            (fresh_builder, locals_init) (qs "\n"))
     = mkBuilder [10] CaseChange_None.
Proof.
  assert (I : In (ch "n", 10) metacharacters) by (do 3 right; now left).
  split; [ exact Ascii_isDigit_ascii | ].
  split; [ reflexivity | ]. split; [ exact I | ].
  exact (proj1 (metacharacter_control (Q := Ascii.qt) Ascii.sre Ascii.text
                  Ascii.spans fresh_builder locals_init (ch "n") 10
                  Ascii_isDigit_ascii eq_refl I)).
Defined.

Lemma backreference_without_bracket_witness :
  isDigit_ascii Ascii.qt
  /\ in_control locals_init = false
  /\ ch "1" <> ch "{" /\ ch "1" <> ch "<"
  /\ fst (@scan Ascii.qt Ascii.sre Ascii.text Ascii.spans
            (fresh_builder, locals_init) (qs "\g1"))
     = mkBuilder (qs "\g1") CaseChange_None.
Proof.
  split; [ exact Ascii_isDigit_ascii | ].
  split; [ reflexivity | ]. split; [ discriminate | ]. split; [ discriminate | ].
  exact (proj1 (backreference_without_bracket (Q := Ascii.qt) Ascii.sre
                  Ascii.text Ascii.spans fresh_builder locals_init (ch "1")
                  Ascii_isDigit_ascii eq_refl
                  ltac:(discriminate) ltac:(discriminate))).
Defined.

Lemma unrecognized_control_three_characters_witness :
  in_control locals_init = false
  /\ @QChar_isDigit Ascii.qt (ch "q") = false
  /\ ch "q" <> QChar_null
  /\ ~ In (ch "q") control_letters
  /\ fst (@scan Ascii.qt Ascii.sre Ascii.text Ascii.spans
            (fresh_builder, locals_init) [ch "\"; ch "q"; ch "\"])
     = mkBuilder [ch "\"; ch "q"; ch "\"] CaseChange_None.
Proof.
  assert (N : ~ In (ch "q") control_letters) by (cbv; intuition discriminate).
  split; [ reflexivity | ]. split; [ reflexivity | ].
  split; [ discriminate | ]. split; [ exact N | ].
  exact (proj1 (proj2 (proj2
           (unrecognized_control_three_characters (Q := Ascii.qt) Ascii.sre
              Ascii.text Ascii.spans fresh_builder locals_init (ch "q")
              eq_refl eq_refl ltac:(discriminate) N)) (ch "\"))).
Defined.

Lemma case_next_on_backreference_witness :
  isDigit_ascii Ascii.qt
  /\ in_control locals_init = false
  /\ @QChar_isDigit Ascii.qt (ch "0") = true
  /\ 0 <= @QChar_digitValue Ascii.qt (ch "0") < capture_count Ascii.spans
  /\ @capture_text Ascii.qt Ascii.text Ascii.spans
       (@QChar_digitValue Ascii.qt (ch "0")) = ch "H" :: qs "ello"
  /\ fst (@scan Ascii.qt Ascii.sre Ascii.text Ascii.spans
            (mkBuilder [] CaseChange_None, locals_init) (qs "\l\0"))
     = mkBuilder (qs "hello") CaseChange_None.
Proof.
  assert (R : 0 <= @QChar_digitValue Ascii.qt (ch "0") < capture_count Ascii.spans)
    by (split; [ discriminate | reflexivity ]).
  split; [ exact Ascii_isDigit_ascii | ].
  split; [ reflexivity | ]. split; [ reflexivity | ].
  split; [ exact R | ]. split; [ reflexivity | ].
  exact (proj1 (case_next_on_backreference (Q := Ascii.qt) Ascii.sre Ascii.text
                  Ascii.spans [] locals_init (ch "0") (ch "H") (qs "ello")
                  Ascii_isDigit_ascii eq_refl eq_refl R eq_refl)).
Defined.

Lemma directive_after_E_witness :
  isDigit_ascii Ascii.qt
  /\ in_control locals_init = false
  /\ fst (@scan Ascii.qt Ascii.sre Ascii.text Ascii.spans
            (mkBuilder (qs "x") CaseChange_Upper, locals_init) (qs "\E\l"))
     = mkBuilder (qs "x") CaseChange_LowerNext.
Proof.
  split; [ exact Ascii_isDigit_ascii | ]. split; [ reflexivity | ].
  exact (proj1 (directive_after_E (Q := Ascii.qt) Ascii.sre Ascii.text
                  Ascii.spans (mkBuilder (qs "x") CaseChange_Upper) locals_init
                  Ascii_isDigit_ascii eq_refl)).
Defined.

Lemma null_after_backslash_witness :
  isDigit_ascii Ascii.qt
  /\ in_control locals_init = false
  /\ fst (@scan Ascii.qt Ascii.sre Ascii.text Ascii.spans
            (fresh_builder, locals_init) [ch "\"; QChar_null; ch "t"])
     = mkBuilder [9] CaseChange_None.
Proof.
  split; [ exact Ascii_isDigit_ascii | ]. split; [ reflexivity | ].
  exact (proj2 (null_after_backslash (Q := Ascii.qt) Ascii.sre Ascii.text
                  Ascii.spans fresh_builder locals_init
                  Ascii_isDigit_ascii eq_refl)
               (ch "t") 9 ltac:(do 5 right; now left)).
Defined.

Lemma brace_after_hex_digit_witness :
  isDigit_ascii Ascii.qt
  /\ in_control locals_init = false
  /\ is_hex (ch "4") = true
  /\ forallb is_hex (qs "0041") = true
  /\ fst (@scan Ascii.qt Ascii.sre Ascii.text Ascii.spans
            (fresh_builder, locals_init) (qs "\x4{0041}"))
     = mkBuilder (qs "A") CaseChange_None.
Proof.
  split; [ exact Ascii_isDigit_ascii | ].
  split; [ reflexivity | ]. split; [ reflexivity | ]. split; [ reflexivity | ].
  exact (proj1 (brace_after_hex_digit (Q := Ascii.qt) Ascii.sre Ascii.text
                  Ascii.spans fresh_builder locals_init (ch "4") (qs "0041")
                  Ascii_isDigit_ascii eq_refl eq_refl eq_refl)).
Defined.
